(** * GenAI-Playground: prompt builders, response normalizer, dispatch table

    A shallow embedding of [main.py].  Python [str] values are sequences of
    Unicode code points, exceptions are values of [exn], and the effects of
    the script (calls to the vendor SDK, [logging.error]) are threaded
    through an explicit [world]. *)

From Stdlib Require Import List ZArith NArith Lia Bool String Ascii PrimFloat.
From Stdlib Require Import DecimalString.
From stdpp Require Import base option list gmap.
Import ListNotations.

Set Warnings "-register-all".

Local Open Scope N_scope.

(** ** Python strings *)

(** A code point. *)
Abbreviation chr := N (only parsing).

(** A Python [str]. *)
Abbreviation str := (list N) (only parsing).

(** The [str] whose characters are those of an ASCII literal. *)
Definition py (s : string) : str := map N_of_ascii (list_ascii_of_string s).

Arguments py : simpl never.

(** The newline. *)
Definition nl : chr := 10.

(** The character [`]. *)
Definition tick : chr := 96.

(** [Py_UNICODE_ISSPACE]: the test behind [str.strip()], [str.isspace()]
    and the class [\s] of [re] on [str] patterns. *)
Definition isspace (c : chr) : bool :=
  ((9 <=? c) && (c <=? 13)) || ((28 <=? c) && (c <=? 32))
  || (c =? 133) || (c =? 160) || (c =? 5760)
  || ((8192 <=? c) && (c <=? 8202))
  || (c =? 8232) || (c =? 8233) || (c =? 8239) || (c =? 8287) || (c =? 12288).

(** The rest of [s] after its longest prefix of characters in [cls]. *)
Fixpoint dropwhile (cls : chr -> bool) (s : str) : str :=
  match s with
  | c :: t => if cls c then dropwhile cls t else s
  | [] => []
  end.

(** [s.lstrip()] *)
Definition lstrip (s : str) : str := dropwhile isspace s.

(** [s.rstrip()] *)
Definition rstrip (s : str) : str := rev (lstrip (rev s)).

(** [s.strip()] *)
Definition strip (s : str) : str := rstrip (lstrip s).

(** [s.startswith(p)], returning what follows the prefix. *)
Fixpoint strip_prefix (p s : str) : option str :=
  match p, s with
  | [], _ => Some s
  | a :: p', b :: s' => if a =? b then strip_prefix p' s' else None
  | _ :: _, [] => None
  end.

Definition startswith (p s : str) : bool :=
  match strip_prefix p s with Some _ => true | None => false end.

Definition endswith (p s : str) : bool := startswith (rev p) (rev s).

(** ** The fragment of [re] used by the script *)

Module Re.

(** Patterns: literal text, a character class under a greedy star, a
    greedy optional group, concatenation and the anchors [^] and [$]. *)
Inductive re : Type :=
| Lit (p : str)
| Star (cls : chr -> bool)
| Opt (r : re)
| Cat (r1 r2 : re)
| Bos
| Eos.

(** The continuation of a match: whether the position is the start of the
    subject, the rest of the subject, and the length matched so far. *)
Abbreviation cont := (bool -> str -> nat -> option nat) (only parsing).

(** [cls*] followed by [k], greedy: the longest run first, then shorter
    ones on backtracking. *)
Fixpoint star (cls : chr -> bool) (k : cont) (bos : bool) (s : str) (n : nat)
  : option nat :=
  match s with
  | c :: t =>
      if cls c then
        match star cls k false t (S n) with
        | Some m => Some m
        | None => k bos s n
        end
      else k bos s n
  | [] => k bos s n
  end.

(** Backtracking match of [r] followed by [k] at the current position.
    Without [re.MULTILINE], [^] matches at the start of the subject only,
    and [$] at its end or before a newline that ends it. *)
Fixpoint exec (r : re) (k : cont) (bos : bool) (s : str) (n : nat)
  : option nat :=
  match r with
  | Lit p =>
      match strip_prefix p s with
      | Some t => k (match p with [] => bos | _ => false end) t (n + length p)%nat
      | None => None
      end
  | Star cls => star cls k bos s n
  | Opt r1 =>
      match exec r1 k bos s n with
      | Some m => Some m
      | None => k bos s n
      end
  | Cat r1 r2 => exec r1 (exec r2 k) bos s n
  | Bos => if bos then k bos s n else None
  | Eos =>
      match s with
      | [] => k bos s n
      | [c] => if c =? nl then k bos s n else None
      | _ => None
      end
  end.

(** The length of the match of [r] that starts at the current position. *)
Definition match_at (r : re) (bos : bool) (s : str) : option nat :=
  exec r (fun _ _ n => Some n) bos s 0%nat.

(** [re.sub(r, '', s)] for a pattern that matches no empty string: scan
    from the left, delete every match, resume after it.  [skip] counts
    the characters of the current match still to delete. *)
Fixpoint sub_go (r : re) (bos : bool) (skip : nat) (s : str) : str :=
  match s with
  | [] => []
  | c :: t =>
      match skip with
      | S k => sub_go r false k t
      | O =>
          match match_at r bos s with
          | Some (S k) => sub_go r false k t
          | _ => c :: sub_go r false 0 t
          end
      end
  end.

Definition sub (r : re) (s : str) : str := sub_go r true 0 s.

End Re.

(** [```] *)
Definition fence : str := [tick; tick; tick].

(** [r"^```(?:json)?\s*"] *)
Definition LEADING_FENCE : Re.re :=
  Re.Cat Re.Bos
    (Re.Cat (Re.Lit fence) (Re.Cat (Re.Opt (Re.Lit (py "json"))) (Re.Star isspace))).

(** [r"\s*```$"] *)
Definition TRAILING_FENCE : Re.re :=
  Re.Cat (Re.Star isspace) (Re.Cat (Re.Lit fence) Re.Eos).

(** Lines 101-105 of [structured_json_response]: the text handed to
    [json.loads]. *)
Definition clean_fences (result : str) : str :=
  let clean := strip result in
  let clean := Re.sub LEADING_FENCE clean in
  let clean := Re.sub TRAILING_FENCE clean in
  clean.

(** ** Exceptions, effects and the vendor SDK *)

(** The exception classes the script can meet.  [JSONDecodeError] is the
    subclass of [ValueError] raised by [json.loads]; [VendorError] stands
    for the exceptions of the SDK (network, authentication, quota), which
    derive from [Exception]; [KeyboardInterrupt] and [SystemExit] derive
    from [BaseException] only, and can reach the script during a call. *)
Inductive exn : Type :=
| ValueError (msg : str)
| JSONDecodeError
| TypeError
| KeyError (key : str)
| AttributeError
| RecursionError
| VendorError (cause : str)
| KeyboardInterrupt
| SystemExit.

(** The outcome of a call: a value, or a raised exception. *)
Inductive result (A : Type) : Type :=
| Return (a : A)
| Raise (e : exn).
Arguments Return {A} a.
Arguments Raise {A} e.

(** The two SDK entry points [generate_response] calls:
    [google_client.models.generate_content(model, contents)] and
    [openai_client.chat.completions.create(model, messages)] with the single
    user message [content]. *)
Inductive request : Type :=
| GenerateContent (model contents : str)
| ChatCompletion (model content : str).

(** A record written by [logging.error]: the call site, and the value its
    f-string interpolates. *)
Inductive log_record : Type :=
| GoogleError (e : exn)
| OpenAIError (e : exn)
| JSONParseError (clean : str).

(** What the script can observe and change: the state of the vendor behind
    the SDK, the requests sent to it so far, and the log. *)
Record world (V : Type) : Type := World {
  vendor : V;
  requests : list request;
  log : list log_record
}.
Arguments World {V} _ _ _.
Arguments vendor {V} _.
Arguments requests {V} _.
Arguments log {V} _.

(** Computations of the script. *)
Definition M (V A : Type) : Type := world V -> result A * world V.

Definition ret {V A} (a : A) : M V A := fun w => (Return a, w).

Definition raise {V A} (e : exn) : M V A := fun w => (Raise e, w).

Definition bind {V A B} (m : M V A) (f : A -> M V B) : M V B :=
  fun w =>
    match m w with
    | (Return a, w') => f a w'
    | (Raise e, w') => (Raise e, w')
    end.

Notation "x <- m ;; k" := (bind m (fun x => k))
  (at level 100, m at next level, right associativity).
Notation "m ;;; k" := (bind m (fun _ => k))
  (at level 100, right associativity).

(** [try: m  except <classes>: handler], where [catches] tells the classes. *)
Definition try_except {V A} (m : M V A) (catches : exn -> bool) (handler : exn -> M V A)
  : M V A :=
  fun w =>
    match m w with
    | (Return a, w') => (Return a, w')
    | (Raise e, w') => if catches e then handler e w' else (Raise e, w')
    end.

(** [except Exception]: the classes that derive from [Exception]. *)
Definition Exception (e : exn) : bool :=
  match e with
  | KeyboardInterrupt | SystemExit => false
  | _ => true
  end.

Definition is_JSONDecodeError (e : exn) : bool :=
  match e with JSONDecodeError => true | _ => false end.

Definition lift {V A} (r : result A) : M V A := fun w => (r, w).

Definition logging_error {V} (r : log_record) : M V unit :=
  fun w => (Return tt, World (vendor w) (requests w) (log w ++ [r])).

(** [.strip()] on the text attribute of a response, which the SDKs type as
    optional: [None] has no such method. *)
Definition text_strip (text : option str) : result str :=
  match text with
  | Some t => Return (strip t)
  | None => Raise AttributeError
  end.

Section Provider.

Context {V : Type}.

(** The vendor SDK, as an oracle: a request yields the response's text or
    raises, and moves the vendor to a new state. *)
Variable sdk : request -> V -> result (option str) * V.

(** The module globals [PROVIDER] and [MODEL]. *)
Variable PROVIDER MODEL : str.

(** One round trip to the vendor. *)
Definition call (rq : request) : M V (option str) :=
  fun w =>
    let '(resp, v) := sdk rq (vendor w) in
    (resp, World v (requests w ++ [rq]) (log w)).

Definition generate_response (prompt : str) : M V str :=
  if decide (PROVIDER = py "google") then
    try_except
      (text <- call (GenerateContent MODEL prompt) ;;
       lift (text_strip text))
      Exception
      (fun e => logging_error (GoogleError e) ;;; raise e)
  else
    try_except
      (content <- call (ChatCompletion MODEL prompt) ;;
       lift (text_strip content))
      Exception
      (fun e => logging_error (OpenAIError e) ;;; raise e).

End Provider.

(** ** Prompt builders *)

(** A [dict] with [str] keys and values. *)
Abbreviation example := (gmap (list N) (list N)) (only parsing).

(** [ex[key]] *)
Definition getitem (ex : example) (key : str) : result str :=
  match ex !! key with
  | Some v => Return v
  | None => Raise (KeyError key)
  end.

(** The loop of [few_shot_prompt]: [prompt] grows by one block per example. *)
Fixpoint few_shot_examples (prompt : str) (examples : list example) : result str :=
  match examples with
  | [] => Return prompt
  | ex :: rest =>
      match getitem ex (py "question") with
      | Raise e => Raise e
      | Return q =>
          match getitem ex (py "answer") with
          | Raise e => Raise e
          | Return a =>
              few_shot_examples
                (prompt ++ (py "Q: " ++ q ++ [nl] ++ py "A: " ++ a ++ [nl])) rest
          end
      end
  end.

(** The prompt [few_shot_prompt] sends. *)
Definition few_shot_text (query : str) (examples : list example) : result str :=
  match few_shot_examples [] examples with
  | Return prompt => Return (prompt ++ (py "Q: " ++ query ++ [nl] ++ py "A:"))
  | Raise e => Raise e
  end.

(** The prompt [retrieval_augmented_generation] sends. *)
Definition rag_text (context question : str) : str :=
  py "Context: " ++ context ++ [nl] ++ py "Question: " ++ question ++ [nl] ++ py "Answer:".

(** The double quote. *)
Definition dquote : chr := 34.

(** The prompt [structured_json_response] sends. *)
Definition json_text (query : str) : str :=
  py "Answer the following question in JSON format "
  ++ (py "'{" ++ [dquote] ++ py "answer" ++ [dquote] ++ py ": " ++ [dquote]
      ++ py "Your answer here" ++ [dquote] ++ py "}'. ")
  ++ (py "Question: " ++ query).

(** ** [json.loads]

    The decoder of the standard library, on a [str]: the value, or
    [JSONDecodeError]. *)

(** The objects [json.loads] builds.  A [float] is kept as the literal
    handed to [float()]; a [dict] keeps its items in insertion order. *)
Inductive value : Type :=
| VNone
| VBool (b : bool)
| VInt (z : Z)
| VFloat (literal : str)
| VStr (s : str)
| VList (items : list value)
| VDict (items : list (str * value)).

(** [d[k] = v] *)
Fixpoint dict_set (d : list (str * value)) (k : str) (v : value) : list (str * value) :=
  match d with
  | [] => [(k, v)]
  | (k', v') :: d' =>
      if decide (k' = k) then (k', v) :: d' else (k', v') :: dict_set d' k v
  end.

(** [dict(pairs)] *)
Definition dict (pairs : list (str * value)) : list (str * value) :=
  fold_left (fun d kv => dict_set d (fst kv) (snd kv)) pairs [].

(** The nested calls that the report of a syntax error from inside the
    scanner takes in CPython 3.11, where the scanner, written in C, calls
    the constructor of [JSONDecodeError], written in Python, and both count
    against the recursion limit. *)
Definition report_levels : nat := 3.

(** What the decoder takes from the interpreter: the number of nested
    calls still allowed when the scan starts (the recursion limit less the
    depth of the call stack) beyond the [report_levels], which a script
    that can report a syntax error at all has left; and
    [sys.get_int_max_str_digits()], the longest decimal text [int()]
    converts (0: any length). *)
Class Interpreter : Type := {
  recursion_left : nat;
  int_max_str_digits : nat
}.

(** CPython 3.11 with its defaults, for [json.loads] called as [main]
    calls it through [structured_json_response]: of the recursion limit of
    1000, 993 nested calls are left to the scanner; 4300 digits. *)
Definition cpython : Interpreter :=
  {| recursion_left := 990; int_max_str_digits := 4300 |}.

(** The decimal text of a number. *)
Definition str_of_nat (n : nat) : str := py (NilZero.string_of_uint (Nat.to_uint n)).

(** The [ValueError] of [int()] on a text of [digits] digits, over the
    limit [max]. *)
Definition int_too_long (max digits : nat) : exn :=
  ValueError
    (py "Exceeds the limit (" ++ str_of_nat max
     ++ py " digits) for integer string conversion: value has " ++ str_of_nat digits
     ++ py " digits; use sys.set_int_max_str_digits() to increase the limit").

(** The outcome of a scanner: the value and the text after it; no value
    at this place (the [StopIteration] of the scanner, which [raw_decode]
    reports as a [JSONDecodeError]) or a syntax error reported; another
    exception; or an exhausted budget of the model. *)
Inductive scanned (A : Type) : Type :=
| Scanned (a : A) (rest : str)
| Invalid
| Raised (e : exn)
| Exhausted.
Arguments Scanned {A} a rest.
Arguments Invalid {A}.
Arguments Raised {A} e.
Arguments Exhausted {A}.

(** The whitespace of JSON: space, tab, line feed, carriage return. *)
Definition is_json_ws (c : chr) : bool :=
  (c =? 32) || (c =? 9) || (c =? 10) || (c =? 13).

Definition skip_ws (s : str) : str := dropwhile is_json_ws s.

Definition is_digit (c : chr) : bool := (48 <=? c) && (c <=? 57).

(** The longest prefix of [s] of characters in [cls]. *)
Fixpoint takewhile (cls : chr -> bool) (s : str) : str :=
  match s with
  | c :: t => if cls c then c :: takewhile cls t else []
  | [] => []
  end.

Definition hexval (c : chr) : option N :=
  if is_digit c then Some (c - 48)
  else if (97 <=? c) && (c <=? 102) then Some (c - 87)
  else if (65 <=? c) && (c <=? 70) then Some (c - 55)
  else None.

(** The value of the four hexadecimal digits of a [\uXXXX] escape. *)
Definition decode_uXXXX (a b c d : chr) : option N :=
  match hexval a, hexval b, hexval c, hexval d with
  | Some x, Some y, Some z, Some w => Some (((x * 16 + y) * 16 + z) * 16 + w)
  | _, _, _, _ => None
  end.

(** The escapes of one character. *)
Definition BACKSLASH (e : chr) : option chr :=
  if e =? 34 then Some 34
  else if e =? 92 then Some 92
  else if e =? 47 then Some 47
  else if e =? 98 then Some 8
  else if e =? 102 then Some 12
  else if e =? 110 then Some 10
  else if e =? 114 then Some 13
  else if e =? 116 then Some 9
  else None.

(** The characters of a string literal up to its closing quote, each with
    whether it was written as a [\uXXXX] escape.  Strict mode: a control
    character ends the scan with an error. *)
Fixpoint scan_chars (s : str) (acc : list (bool * chr)) : option (list (bool * chr) * str) :=
  match s with
  | [] => None
  | c :: t =>
      if c =? dquote then Some (rev acc, t)
      else if c =? 92 then
        match t with
        | [] => None
        | e :: t' =>
            if e =? 117 then
              match t' with
              | h1 :: h2 :: h3 :: h4 :: t'' =>
                  match decode_uXXXX h1 h2 h3 h4 with
                  | Some uni => scan_chars t'' ((true, uni) :: acc)
                  | None => None
                  end
              | _ => None
              end
            else
              match BACKSLASH e with
              | Some x => scan_chars t' ((false, x) :: acc)
              | None => None
              end
        end
      else if c <? 32 then None
      else scan_chars t ((false, c) :: acc)
  end.

Definition is_high_surrogate (c : chr) : bool := (55296 <=? c) && (c <=? 56319).
Definition is_low_surrogate (c : chr) : bool := (56320 <=? c) && (c <=? 57343).

(** A high surrogate escape directly followed by a low surrogate escape
    is one character. *)
Fixpoint join_surrogates (l : list (bool * chr)) : str :=
  match l with
  | [] => []
  | (esc, c) :: rest =>
      match rest with
      | (true, c2) :: rest' =>
          if esc && is_high_surrogate c && is_low_surrogate c2
          then (65536 + N.lor (N.shiftl (c - 55296) 10) (c2 - 56320)) :: join_surrogates rest'
          else c :: join_surrogates rest
      | _ => c :: join_surrogates rest
      end
  end.

(** [scanstring]: [s] follows the opening quote. *)
Definition scanstring (s : str) : option (str * str) :=
  match scan_chars s [] with
  | Some (cs, rest) => Some (join_surrogates cs, rest)
  | None => None
  end.

(** [int()] of a run of decimal digits. *)
Definition int_of_digits (ds : str) : Z :=
  fold_left (fun a d => (a * 10 + Z.of_N (d - 48))%Z) ds 0%Z.

(** The integer part: a zero, or a digit from 1 to 9 and further digits. *)
Definition lex_int (s : str) : option (str * str) :=
  match s with
  | c :: t =>
      if c =? 48 then Some ([c], t)
      else if is_digit c then Some (c :: takewhile is_digit t, dropwhile is_digit t)
      else None
  | [] => None
  end.

(** The optional fraction: a dot and at least one digit. *)
Definition lex_frac (s : str) : str * str :=
  match s with
  | c :: d :: t =>
      if (c =? 46) && is_digit d
      then (c :: d :: takewhile is_digit t, dropwhile is_digit t)
      else ([], s)
  | _ => ([], s)
  end.

(** The optional sign of an exponent. *)
Definition lex_sign (s : str) : str * str :=
  match s with
  | c :: t => if (c =? 45) || (c =? 43) then ([c], t) else ([], s)
  | [] => ([], s)
  end.

(** The optional exponent: e or E, an optional sign, at least one digit. *)
Definition lex_exp (s : str) : str * str :=
  match s with
  | e :: t =>
      if (e =? 101) || (e =? 69) then
        let '(sign, t1) := lex_sign t in
        match takewhile is_digit t1 with
        | [] => ([], s)
        | ds => (e :: sign ++ ds, dropwhile is_digit t1)
        end
      else ([], s)
  | [] => ([], s)
  end.

(** The digits of a number, after its sign: an [int] unless a fraction or
    an exponent follows the integer part. *)
Definition number_body (minus : bool) (s : str) : option (value * str) :=
  match lex_int s with
  | None => None
  | Some (int, s1) =>
      let '(frac, s2) := lex_frac s1 in
      let '(exp, s3) := lex_exp s2 in
      match frac ++ exp with
      | [] => Some (VInt (if minus then - int_of_digits int else int_of_digits int)%Z, s3)
      | _ => Some (VFloat ((if minus then [45] else []) ++ int ++ frac ++ exp), s3)
      end
  end.

(** The number at the start of [s]. *)
Definition match_number (s : str) : option (value * str) :=
  match s with
  | c :: t => if c =? 45 then number_body true t else number_body false s
  | [] => None
  end.

(** The constants and numbers, tried in the order of the scanner. *)
Definition match_constant (s : str) : option (value * str) :=
  match strip_prefix (py "null") s with
  | Some r => Some (VNone, r)
  | None =>
  match strip_prefix (py "true") s with
  | Some r => Some (VBool true, r)
  | None =>
  match strip_prefix (py "false") s with
  | Some r => Some (VBool false, r)
  | None =>
  match match_number s with
  | Some vr => Some vr
  | None =>
  match strip_prefix (py "NaN") s with
  | Some r => Some (VFloat (py "NaN"), r)
  | None =>
  match strip_prefix (py "Infinity") s with
  | Some r => Some (VFloat (py "Infinity"), r)
  | None =>
  match strip_prefix (py "-Infinity") s with
  | Some r => Some (VFloat (py "-Infinity"), r)
  | None => None
  end end end end end end end.

(** The text of the value read from [s] when [rest] is left. *)
Definition literal (s rest : str) : str := take (length s - length rest) s.

(** [int()] on the literal of an integer, a sign and digits: the digits
    are counted against the limit of the interpreter. *)
Definition int_conversion {interp : Interpreter} (lit : str) : option exn :=
  let digits := length (filter is_digit lit) in
  if ((0 <? int_max_str_digits) && (int_max_str_digits <? digits))%nat
  then Some (int_too_long int_max_str_digits digits)
  else None.

(** The conversion that follows the match of a constant or a number. *)
Definition converted {interp : Interpreter} (s : str) (v : value) (rest : str) : scanned value :=
  match v with
  | VInt _ =>
      match int_conversion (literal s rest) with
      | Some e => Raised e
      | None => Scanned v rest
      end
  | _ => Scanned v rest
  end.

(** A syntax error that the scanner reports itself (a string that does
    not end, a missing delimiter or key): with fewer than [report_levels]
    nested calls left, the report ends in a [RecursionError]. *)
Definition refused {A : Type} (depth : nat) : scanned A :=
  if (depth <? report_levels)%nat then Raised RecursionError else Invalid.

(** [scan_once], with the loops of [JSONArray] and [JSONObject].  Every
    call spends one unit of [fuel]; [array_items] starts at an item,
    [object_items] after the opening quote of a key.  [depth] is the
    number of nested calls left: an object or an array is entered when it
    allows one more, and is scanned with one less. *)
Fixpoint scan_once {interp : Interpreter} (fuel depth : nat) (s : str) {struct fuel}
  : scanned value :=
  match fuel with
  | O => Exhausted
  | S n =>
      match s with
      | [] => Invalid
      | c :: t =>
          if c =? dquote then
            match scanstring t with
            | Some (x, r) => Scanned (VStr x) r
            | None => refused depth
            end
          else if c =? 123 then
            match depth with
            | O => Raised RecursionError
            | S d =>
                match skip_ws t with
                | c' :: t' =>
                    if c' =? 125 then Scanned (VDict []) t'
                    else if c' =? dquote then object_items n d t' []
                    else refused d
                | [] => refused d
                end
            end
          else if c =? 91 then
            match depth with
            | O => Raised RecursionError
            | S d =>
                match skip_ws t with
                | c' :: t' =>
                    if c' =? 93 then Scanned (VList []) t'
                    else array_items n d (c' :: t') []
                | [] => Invalid
                end
            end
          else
            match match_constant s with
            | Some (v, r) => converted s v r
            | None => Invalid
            end
      end
  end
with array_items {interp : Interpreter} (fuel depth : nat) (s : str) (values : list value)
    {struct fuel} : scanned value :=
  match fuel with
  | O => Exhausted
  | S n =>
      match scan_once n depth s with
      | Scanned v r =>
          match skip_ws r with
          | c :: t =>
              if c =? 93 then Scanned (VList (rev (v :: values))) t
              else if c =? 44 then array_items n depth (skip_ws t) (v :: values)
              else refused depth
          | [] => refused depth
          end
      | Invalid => Invalid
      | Raised e => Raised e
      | Exhausted => Exhausted
      end
  end
with object_items {interp : Interpreter} (fuel depth : nat) (s : str) (pairs : list (str * value))
    {struct fuel} : scanned value :=
  match fuel with
  | O => Exhausted
  | S n =>
      match scanstring s with
      | None => refused depth
      | Some (key, r) =>
          match skip_ws r with
          | c :: t =>
              if c =? 58 then
                match scan_once n depth (skip_ws t) with
                | Scanned v r1 =>
                    match skip_ws r1 with
                    | c1 :: t1 =>
                        if c1 =? 125 then Scanned (VDict (dict (rev ((key, v) :: pairs)))) t1
                        else if c1 =? 44 then
                          match skip_ws t1 with
                          | c2 :: t2 =>
                              if c2 =? dquote
                              then object_items n depth t2 ((key, v) :: pairs)
                              else refused depth
                          | [] => refused depth
                          end
                        else refused depth
                    | [] => refused depth
                    end
                | Invalid => Invalid
                | Raised e => Raised e
                | Exhausted => Exhausted
                end
              else refused depth
          | [] => refused depth
          end
      end
  end.

(** The byte order mark, which [json.loads] refuses at the start of a [str]. *)
Definition BOM : chr := 65279.

(** [json.loads(s)]: optional whitespace, one value, optional whitespace,
    and the end of the text.  A syntax error is a [JSONDecodeError]; the
    [RecursionError] of a nesting too deep, or of a report with too few
    calls left, and the [ValueError] of an integer too long are raised as
    they are. *)
Definition json_loads {interp : Interpreter} (s : str) : result value :=
  if startswith [BOM] s then Raise JSONDecodeError
  else
    match scan_once (2 * length s + 1) (report_levels + recursion_left) (skip_ws s) with
    | Scanned v r =>
        match skip_ws r with
        | [] => Return v
        | _ :: _ => Raise JSONDecodeError
        end
    | Raised e => Raise e
    | _ => Raise JSONDecodeError
    end.

(** ** Structured output *)

(** The value returned when [json.loads] raises [JSONDecodeError]. *)
Definition parse_failure (raw_response : str) : value :=
  VDict [(py "error", VStr (py "Failed to parse JSON"));
         (py "raw_response", VStr raw_response)].

(** Lines 100-110 of [structured_json_response]: the Response Normalizer,
    applied to the text [result] that [generate_response] returned. *)
Definition normalize {interp : Interpreter} {V} (result : str) : M V value :=
  let clean := clean_fences result in
  try_except
    (lift (json_loads clean))
    is_JSONDecodeError
    (fun _ => logging_error (JSONParseError clean) ;;; ret (parse_failure result)).

Section Patterns.

Context {interp : Interpreter} {V : Type}.
Variable sdk : request -> V -> result (option str) * V.
Variable PROVIDER MODEL : str.

Definition few_shot_prompt (query : str) (examples : list example) : M V str :=
  prompt <- lift (few_shot_text query examples) ;;
  generate_response sdk PROVIDER MODEL prompt.

Definition structured_json_response (query : str) : M V value :=
  result <- generate_response sdk PROVIDER MODEL (json_text query) ;;
  normalize result.

Definition retrieval_augmented_generation (context question : str) : M V str :=
  generate_response sdk PROVIDER MODEL (rag_text context question).

End Patterns.

(** ** Function calling *)

Module Calculator.

Definition add (a b : float) : float := PrimFloat.add a b.

Definition multiply (a b : float) : float := PrimFloat.mul a b.

End Calculator.

(** The table [functions] of [function_call]. *)
Definition functions : gmap (list N) (float -> float -> float) :=
  <[py "add" := Calculator.add]> (<[py "multiply" := Calculator.multiply]> ∅).

(** The call of [f] on the unpacked [args], for a function of two
    positional parameters. *)
Definition apply2 (f : float -> float -> float) (args : list float) : result float :=
  match args with
  | [a; b] => Return (f a b)
  | _ => Raise TypeError
  end.

Definition function_call (function_name : str) (args : list float) : result float :=
  match functions !! function_name with
  | None => Raise (ValueError (py "Function '" ++ function_name ++ py "' not supported."))
  | Some f => apply2 f args
  end.

(** ** Start-up *)

Definition DEFAULT_MODEL_GOOGLE : str := py "gemini-2.0-flash".

Definition DEFAULT_MODEL_OPENAI : str := py "gpt-3.5-turbo".

(** The module globals [PROVIDER], [API_KEY] and [MODEL] once the module
    has loaded. *)
Record globals : Type := Globals {
  PROVIDER_of : str;
  API_KEY_of : str;
  MODEL_of : str
}.

Section Startup.

(** [str.lower], which follows the Unicode tables. *)
Variable lower : str -> str.

(** The set-up of the SDK client of a provider with the key (the import
    and [genai.Client(vertexai=False, api_key=...)] or [OpenAI(api_key=...)]),
    which may raise. *)
Variable client_setup : str -> str -> result unit.

(** Lines 14-43: the module body, on the environment [environ] left by
    [load_dotenv()]. *)
Definition startup (environ : gmap (list N) (list N)) : result globals :=
  let PROVIDER :=
    lower (match environ !! py "PROVIDER" with Some p => p | None => py "google" end) in
  let API_KEY := environ !! py "API_KEY" in
  let MODEL :=
    match environ !! py "MODEL" with
    | Some (c :: m) => c :: m
    | _ => if decide (PROVIDER = py "google") then DEFAULT_MODEL_GOOGLE
           else DEFAULT_MODEL_OPENAI
    end in
  match API_KEY with
  | Some (c :: key) =>
      if decide (PROVIDER = py "google") then
        match client_setup (py "google") (c :: key) with
        | Return _ => Return (Globals PROVIDER (c :: key) MODEL)
        | Raise e => Raise e
        end
      else if decide (PROVIDER = py "openai") then
        match client_setup (py "openai") (c :: key) with
        | Return _ => Return (Globals PROVIDER (c :: key) MODEL)
        | Raise e => Raise e
        end
      else Raise (ValueError (py "Unsupported provider: " ++ PROVIDER))
  | _ => Raise (ValueError (py "Missing API_KEY environment variable."))
  end.

End Startup.

(** A text that a JSON string literal holds as it is: no double quote, no
    backslash, no control character. *)
Definition plain (r : str) : bool :=
  forallb (fun c => negb (c =? dquote) && negb (c =? 92) && negb (c <? 32)) r.

(** The JSON text of an object with the keys [error] and [raw_response],
    as a model could reply it. *)
Definition error_reply (raw_response : str) : str :=
  py "{" ++ [dquote] ++ py "error" ++ [dquote] ++ py ": "
  ++ [dquote] ++ py "Failed to parse JSON" ++ [dquote] ++ py ", "
  ++ [dquote] ++ py "raw_response" ++ [dquote] ++ py ": "
  ++ [dquote] ++ raw_response ++ [dquote] ++ py "}".

(** An example that has both keys, with these values. *)
Definition has_keys (ex : example) (qa : str * str) : Prop :=
  ex !! py "question" = Some (fst qa) /\ ex !! py "answer" = Some (snd qa).

(** ** Direct forms of the two substitutions *)

(** What [re.sub(LEADING_FENCE, '', s)] leaves. *)
Definition strip_leading (s : str) : str :=
  match strip_prefix fence s with
  | Some t =>
      lstrip (match strip_prefix (py "json") t with Some t' => t' | None => t end)
  | None => s
  end.

(** When [TRAILING_FENCE] matches at the start of [s]: what follows the
    match, nothing or the newline that ends [s]. *)
Definition trailing_at (s : str) : option str :=
  match strip_prefix fence (lstrip s) with
  | Some [] => Some []
  | Some [c] => if c =? nl then Some [c] else None
  | _ => None
  end.

(** What [re.sub(TRAILING_FENCE, '', s)] leaves: the text before the
    leftmost match and what follows the match. *)
Fixpoint strip_trailing (s : str) : str :=
  match s with
  | [] => []
  | c :: t =>
      match trailing_at s with
      | Some e => e
      | None => c :: strip_trailing t
      end
  end.

(** No whitespace at the start, at the end. *)
Definition ltrimmed (s : str) : bool :=
  match s with
  | c :: _ => negb (isspace c)
  | [] => true
  end.

Definition rtrimmed (s : str) : bool := ltrimmed (rev s).

(** Every character is whitespace. *)
Definition blank (s : str) : bool := forallb isspace s.

(** The text a leading match removes: a fence, an optional tag [json],
    whitespace. *)
Definition leading_marker (p : str) : Prop :=
  exists tag w, p = fence ++ tag ++ w /\ (tag = [] \/ tag = py "json") /\ blank w = true.

(** The text a trailing match removes: whitespace, a fence. *)
Definition trailing_marker (q : str) : Prop :=
  exists w, q = w ++ fence /\ blank w = true.

(** A character that can carry on a number. *)
Definition number_char (c : chr) : bool :=
  is_digit c || (c =? 46) || (c =? 101) || (c =? 69).

(** The text [r] does not start with a character in [cls]. *)
Definition stops (cls : chr -> bool) (r : str) : Prop :=
  match r with
  | c :: _ => cls c = false
  | [] => True
  end.

(** The characters a JSON value can start with, and end with. *)
Definition value_start (c : chr) : bool :=
  (c =? dquote) || (c =? 123) || (c =? 91) || (c =? 110) || (c =? 116)
  || (c =? 102) || (c =? 45) || is_digit c || (c =? 78) || (c =? 73).

Definition value_end (c : chr) : bool :=
  (c =? dquote) || (c =? 125) || (c =? 93) || (c =? 108) || (c =? 101)
  || is_digit c || (c =? 78) || (c =? 121).

(** The text of a value: its first and last characters are of these kinds. *)
Definition value_text (a : str) : Prop :=
  (exists c a', a = c :: a' /\ value_start c = true)
  /\ (exists b d, a = b ++ [d] /\ value_end d = true).

(** With [fuel], [scan_once] reads a value from its own text [a] alone:
    the text has the shape of a value, and the same value is read from [a]
    before any other rest that cannot carry on a number, with any budget of
    at least [2 * length a + 1]. *)
Definition scan_once_reads {interp : Interpreter} (fuel : nat) : Prop :=
  forall d s v r, scan_once fuel d s = Scanned v r ->
    exists a, s = a ++ r /\ value_text a
      /\ forall r' m, stops number_char r' -> (2 * length a + 1 <= m)%nat ->
                      scan_once m d (a ++ r') = Scanned v r'.

(** The same for the items of an array up to its closing bracket. *)
Definition array_items_reads {interp : Interpreter} (fuel : nat) : Prop :=
  forall d s values v r, array_items fuel d s values = Scanned v r ->
    exists a, s = a ++ r
      /\ (exists c a', a = c :: a' /\ value_start c = true)
      /\ (exists b, a = b ++ [93])
      /\ forall r' m, (2 * length a + 2 <= m)%nat ->
                      array_items m d (a ++ r') values = Scanned v r'.

(** The same for the items of an object up to its closing brace. *)
Definition object_items_reads {interp : Interpreter} (fuel : nat) : Prop :=
  forall d s pairs v r, object_items fuel d s pairs = Scanned v r ->
    exists a, s = a ++ r
      /\ (exists b, a = b ++ [125])
      /\ forall r' m, (2 * length a + 2 <= m)%nat ->
                      object_items m d (a ++ r') pairs = Scanned v r'.

(** An exception of a scan is a [RecursionError] or the [ValueError] of
    an integer over the limit of the interpreter. *)
Definition limit_error {interp : Interpreter} (e : exn) : Prop :=
  e = RecursionError
  \/ exists digits, (0 < int_max_str_digits < digits)%nat
                    /\ e = int_too_long int_max_str_digits digits.

(** The characters [value_start] and [value_end] accept. *)
Definition value_starts : str :=
  [34; 123; 91; 110; 116; 102; 45; 48; 49; 50; 51; 52; 53; 54; 55; 56; 57; 78; 73].

Definition value_ends : str :=
  [34; 125; 93; 108; 101; 48; 49; 50; 51; 52; 53; 54; 55; 56; 57; 78; 121].

(** The request [generate_response] sends for [prompt], and the record it
    logs when the call fails with [e]. *)
Definition request_of (PROVIDER MODEL prompt : str) : request :=
  if decide (PROVIDER = py "google") then GenerateContent MODEL prompt
  else ChatCompletion MODEL prompt.

Definition error_record (PROVIDER : str) (e : exn) : log_record :=
  if decide (PROVIDER = py "google") then GoogleError e else OpenAIError e.

(** The world after a record is logged. *)
Definition logged {V} (w : world V) (r : log_record) : world V :=
  World (vendor w) (requests w) (log w ++ [r]).

(** The world after one round trip for [rq]. *)
Definition called {V} (sdk : request -> V -> result (option str) * V)
    (rq : request) (w : world V) : world V :=
  World (snd (sdk rq (vendor w))) (requests w ++ [rq]) (log w).

(** The example [{'question': q, 'answer': a}]. *)
Definition example_dict (qa : str * str) : example :=
  <[py "question" := fst qa]> (<[py "answer" := snd qa]> ∅).

(** The block of the few-shot prompt for one example. *)
Definition example_block (qa : str * str) : str :=
  py "Q: " ++ fst qa ++ [nl] ++ py "A: " ++ snd qa ++ [nl].

(** The spellings of the tag [json] in upper and lower case letters. *)
Definition json_casing (tag : str) : bool :=
  match tag with
  | [a; b; c; d] =>
      ((a =? 106) || (a =? 74)) && ((b =? 115) || (b =? 83))
      && ((c =? 111) || (c =? 79)) && ((d =? 110) || (d =? 78))
  | _ => false
  end.

(** ** Strings *)

Lemma take_drop_while cls (s : list N) : takewhile cls s ++ dropwhile cls s = s.
Proof.
  induction s as [|c t IH]; simpl; [done|].
  destruct (cls c); simpl; [by rewrite IH | done].
Qed.

Lemma dropwhile_length cls (s : list N) : (length (dropwhile cls s) <= length s)%nat.
Proof.
  induction s as [|c t IH]; simpl; [lia|]. destruct (cls c); simpl; lia.
Qed.

Lemma dropwhile_head cls (s : list N) c t :
  dropwhile cls s = c :: t -> cls c = false.
Proof.
  induction s as [|x s IH]; simpl; [done|].
  destruct (cls x) eqn:E; [done|]. intros [= -> ->]. done.
Qed.

Lemma dropwhile_all cls (w r : list N) :
  forallb cls w = true -> dropwhile cls (w ++ r) = dropwhile cls r.
Proof.
  induction w as [|c w IH]; simpl; [done|].
  intros [-> Hw]%andb_true_iff. auto.
Qed.

Lemma dropwhile_stop cls (s : list N) :
  stops cls s -> dropwhile cls s = s.
Proof. destruct s as [|c t]; simpl; [done|]. by intros ->. Qed.

Lemma takewhile_all cls (s : list N) : forallb cls (takewhile cls s) = true.
Proof.
  induction s as [|c t IH]; simpl; [done|].
  destruct (cls c) eqn:E; simpl; [by rewrite E|done].
Qed.

Lemma takewhile_app cls (w r : list N) :
  forallb cls w = true -> stops cls r -> takewhile cls (w ++ r) = w.
Proof.
  induction w as [|c w IH]; simpl.
  - intros _. destruct r as [|c r]; simpl; [done|]. by intros ->.
  - intros [-> Hw]%andb_true_iff Hr. by rewrite IH.
Qed.

Lemma strip_prefix_Some (p s t : list N) : strip_prefix p s = Some t <-> s = p ++ t.
Proof.
  revert s. induction p as [|a p IH]; intros s; simpl.
  - split; [by intros [= ->] | by intros ->].
  - destruct s as [|b s]; [split; discriminate|].
    destruct (N.eqb_spec a b) as [->|Hne].
    + rewrite IH. split; [by intros -> | by intros [= ->]].
    + split; [discriminate | intros [= -> _]; done].
Qed.

Lemma strip_prefix_app (p t : list N) : strip_prefix p (p ++ t) = Some t.
Proof. by apply strip_prefix_Some. Qed.

Lemma startswith_true (p s : list N) : startswith p s = true <-> exists t, s = p ++ t.
Proof.
  unfold startswith. destruct (strip_prefix p s) as [t|] eqn:E.
  - apply strip_prefix_Some in E. split; eauto.
  - split; [discriminate|]. intros [t Ht]. apply strip_prefix_Some in Ht. congruence.
Qed.

Lemma endswith_true (p s : list N) : endswith p s = true <-> exists a, s = a ++ p.
Proof.
  unfold endswith. rewrite startswith_true. split.
  - intros [t Ht]. exists (rev t).
    rewrite <- (rev_involutive s), Ht, rev_app_distr. by rewrite rev_involutive.
  - intros [a ->]. exists (rev a). by rewrite rev_app_distr.
Qed.

Lemma lstrip_ltrimmed s : ltrimmed (lstrip s) = true.
Proof.
  unfold lstrip. destruct (dropwhile isspace s) as [|c t] eqn:E; simpl; [done|].
  by rewrite (dropwhile_head _ _ _ _ E).
Qed.

Lemma ltrimmed_lstrip s : ltrimmed s = true -> lstrip s = s.
Proof.
  intros H. apply dropwhile_stop. destruct s as [|c t]; [done|].
  simpl in *. by destruct (isspace c).
Qed.

Lemma rtrimmed_rstrip s : rtrimmed s = true -> rstrip s = s.
Proof.
  intros H. unfold rstrip. rewrite ltrimmed_lstrip by done. apply rev_involutive.
Qed.

Lemma rstrip_rtrimmed s : rtrimmed (rstrip s) = true.
Proof. unfold rtrimmed, rstrip. rewrite rev_involutive. apply lstrip_ltrimmed. Qed.

(** A suffix of a text without trailing whitespace has none either. *)
Lemma rtrimmed_suffix (a b : list N) : rtrimmed (a ++ b) = true -> rtrimmed b = true.
Proof.
  unfold rtrimmed. rewrite rev_app_distr.
  destruct (rev b) as [|c t]; simpl; done.
Qed.

(** A prefix of a text without leading whitespace has none either. *)
Lemma ltrimmed_prefix (a b : list N) : ltrimmed (a ++ b) = true -> ltrimmed a = true.
Proof. destruct a; simpl; done. Qed.

Lemma lstrip_suffix s : exists w, s = w ++ lstrip s /\ blank w = true.
Proof.
  exists (takewhile isspace s). split.
  - symmetry. apply take_drop_while.
  - apply takewhile_all.
Qed.

Lemma rstrip_prefix s : exists w, s = rstrip s ++ w /\ blank w = true.
Proof.
  destruct (lstrip_suffix (rev s)) as (w & Hw & Hb).
  exists (rev w). split.
  - unfold rstrip. rewrite <- rev_app_distr, <- Hw. by rewrite rev_involutive.
  - unfold blank in *. rewrite forallb_forall in *. intros x Hx. apply Hb.
    by apply in_rev.
Qed.

Lemma strip_trimmed s : ltrimmed (strip s) = true /\ rtrimmed (strip s) = true.
Proof.
  unfold strip. split; [|apply rstrip_rtrimmed].
  destruct (rstrip_prefix (lstrip s)) as (w & Hw & _).
  apply (ltrimmed_prefix _ w). rewrite <- Hw. apply lstrip_ltrimmed.
Qed.

Lemma strip_id s : ltrimmed s = true -> rtrimmed s = true -> strip s = s.
Proof.
  intros Hl Hr. unfold strip. rewrite (ltrimmed_lstrip s Hl). by apply rtrimmed_rstrip.
Qed.

Lemma blank_app (a b : list N) : blank (a ++ b) = blank a && blank b.
Proof. apply forallb_app. Qed.

Lemma lstrip_blank_app (w s : list N) : blank w = true -> lstrip (w ++ s) = lstrip s.
Proof. apply dropwhile_all. Qed.

Lemma rstrip_blank_app (w s : list N) : blank w = true -> rstrip (s ++ w) = rstrip s.
Proof.
  intros Hw. unfold rstrip. rewrite rev_app_distr, lstrip_blank_app; [done|].
  unfold blank in *. rewrite forallb_forall in *. intros x Hx. apply Hw. by apply in_rev.
Qed.

(** The decomposition of a text around its stripped form. *)
Lemma strip_decompose s :
  exists w1 w2, s = w1 ++ strip s ++ w2 /\ blank w1 = true /\ blank w2 = true.
Proof.
  destruct (lstrip_suffix s) as (w1 & H1 & Hb1).
  destruct (rstrip_prefix (lstrip s)) as (w2 & H2 & Hb2).
  exists w1, w2. split; [|done]. unfold strip. by rewrite <- H2.
Qed.

(** Whitespace around a trimmed text is what [strip] removes. *)
Lemma strip_around (w1 a w2 : list N) :
  blank w1 = true -> blank w2 = true -> ltrimmed a = true -> rtrimmed a = true ->
  strip (w1 ++ a ++ w2) = a.
Proof.
  intros H1 H2 Hl Hr. unfold strip.
  rewrite lstrip_blank_app by done.
  destruct a as [|c a].
  - simpl. rewrite <- (app_nil_r w2), lstrip_blank_app by done. reflexivity.
  - rewrite (ltrimmed_lstrip ((c :: a) ++ w2)) by done.
    rewrite rstrip_blank_app by done. by apply rtrimmed_rstrip.
Qed.

(** ** The two patterns *)

(** A greedy star at the end of a pattern takes the longest run. *)
Lemma star_final cls b (s : list N) n :
  Re.star cls (fun _ _ m => Some m) b s n = Some (n + length (takewhile cls s))%nat.
Proof.
  revert b n. induction s as [|c t IH]; intros b n; simpl.
  - f_equal. lia.
  - destruct (cls c); simpl.
    + rewrite IH. f_equal. lia.
    + f_equal. lia.
Qed.

(** Before a continuation that no character of the class can start, a
    greedy star never gives a character back. *)
Lemma star_commit cls (k : bool -> list N -> nat -> option nat) :
  (forall c t b n, cls c = true -> k b (c :: t) n = None) ->
  (forall b s n, k b s n = k false s n) ->
  forall (s : list N) b n,
    Re.star cls k b s n = k false (dropwhile cls s) (n + length (takewhile cls s))%nat.
Proof.
  intros Hfail Hbos. induction s as [|c t IH]; intros b n; simpl.
  - rewrite Hbos. f_equal. lia.
  - destruct (cls c) eqn:E; simpl.
    + rewrite IH. rewrite (Hfail c t b n E).
      replace (S n + length (takewhile cls t))%nat
        with (n + S (length (takewhile cls t)))%nat by lia.
      by destruct (k false _ _).
    + rewrite Hbos. f_equal. lia.
Qed.

Lemma isspace_tick : isspace tick = false.
Proof. reflexivity. Qed.

Lemma not_space_tick c : isspace c = true -> (tick =? c) = false.
Proof.
  intros H. destruct (N.eqb_spec tick c) as [<-|]; [|done].
  by rewrite isspace_tick in H.
Qed.

(** The match of [LEADING_FENCE] at the start of the subject. *)
Lemma match_at_leading (s : list N) :
  Re.match_at LEADING_FENCE true s =
    match strip_prefix fence s with
    | Some t =>
        match strip_prefix (py "json") t with
        | Some t' => Some (7 + length (takewhile isspace t'))%nat
        | None => Some (3 + length (takewhile isspace t))%nat
        end
    | None => None
    end.
Proof.
  unfold Re.match_at, LEADING_FENCE. cbn [Re.exec].
  destruct (strip_prefix fence s) as [t|]; [|done].
  destruct (strip_prefix (py "json") t) as [t'|]; by rewrite star_final.
Qed.

Lemma match_at_leading_inside (s : list N) : Re.match_at LEADING_FENCE false s = None.
Proof. reflexivity. Qed.

(** The match of [TRAILING_FENCE] at any position. *)
Lemma match_at_trailing b (s : list N) :
  Re.match_at TRAILING_FENCE b s =
    match trailing_at s with
    | Some e => Some (length (takewhile isspace s) + 3)%nat
    | None => None
    end.
Proof.
  unfold Re.match_at, TRAILING_FENCE. cbn [Re.exec].
  rewrite star_commit.
  - unfold trailing_at, lstrip. cbn [Re.exec].
    destruct (strip_prefix fence (dropwhile isspace s)) as [[|c [|d e]]|]; try done.
    by destruct (c =? nl).
  - intros c t b' n Hc. cbn [Re.exec]. unfold fence. cbn [strip_prefix].
    by rewrite (not_space_tick c Hc).
  - intros b' s' n. cbn [Re.exec]. by destruct (strip_prefix fence s').
Qed.

(** Neither pattern matches the empty string, as [sub] assumes. *)
Lemma fence_patterns_nonempty b (s : list N) :
  Re.match_at LEADING_FENCE b s <> Some 0%nat
  /\ Re.match_at TRAILING_FENCE b s <> Some 0%nat.
Proof.
  split.
  - destruct b; [|by rewrite match_at_leading_inside].
    rewrite match_at_leading. by repeat case_match.
  - rewrite match_at_trailing. destruct (trailing_at s); [|done]. intros [= ?]. lia.
Qed.

(** Once inside a match, [sub_go] drops the rest of it. *)
Lemma sub_go_skip r b k (s : list N) :
  Re.sub_go r b (S k) s = Re.sub_go r false 0 (drop (S k) s).
Proof.
  revert b s. induction k as [|k IH]; intros b [|c t]; try done.
  cbn [Re.sub_go]. by rewrite IH.
Qed.

Lemma sub_go_leading_inside (s : list N) : Re.sub_go LEADING_FENCE false 0 s = s.
Proof.
  induction s as [|c t IH]; [done|].
  cbn [Re.sub_go]. rewrite match_at_leading_inside. by rewrite IH.
Qed.

Lemma drop_length_app (a b : list N) n : length a = n -> drop n (a ++ b) = b.
Proof. intros <-. by rewrite drop_app_length. Qed.

Lemma drop_takewhile cls (a x : list N) n :
  n = (length a + length (takewhile cls x))%nat -> drop n (a ++ x) = dropwhile cls x.
Proof.
  intros ->.
  assert (E : a ++ x = (a ++ takewhile cls x) ++ dropwhile cls x).
  { by rewrite <- app_assoc, take_drop_while. }
  rewrite E. apply drop_length_app. apply length_app.
Qed.

(** A pattern that matches at the start of the subject only: [sub] removes
    the match found there. *)
Lemma sub_anchored r (s : list N) n :
  (forall x, Re.sub_go r false 0 x = x) ->
  Re.match_at r true s = Some (S n) ->
  Re.sub r s = drop (S n) s.
Proof.
  intros Hin Hm. unfold Re.sub. destruct s as [|c t]; [done|].
  cbn [Re.sub_go]. rewrite Hm. destruct n as [|k].
  - by rewrite Hin.
  - by rewrite sub_go_skip, Hin.
Qed.

Lemma sub_unmatched r (s : list N) :
  (forall x, Re.sub_go r false 0 x = x) ->
  Re.match_at r true s = None ->
  Re.sub r s = s.
Proof.
  intros Hin Hm. unfold Re.sub. destruct s as [|c t]; [done|].
  cbn [Re.sub_go]. by rewrite Hm, Hin.
Qed.

Theorem sub_leading (s : list N) : Re.sub LEADING_FENCE s = strip_leading s.
Proof.
  unfold strip_leading.
  pose proof (match_at_leading s) as Hm.
  destruct (strip_prefix fence s) as [u|] eqn:Hf.
  - apply strip_prefix_Some in Hf.
    destruct (strip_prefix (py "json") u) as [u'|] eqn:Hj.
    + apply strip_prefix_Some in Hj.
      rewrite (sub_anchored _ _ _ sub_go_leading_inside Hm).
      subst s u. rewrite app_assoc. apply drop_takewhile. reflexivity.
    + rewrite (sub_anchored _ _ _ sub_go_leading_inside Hm).
      subst s. apply drop_takewhile. reflexivity.
  - by apply sub_unmatched; [apply sub_go_leading_inside|].
Qed.

(** Where [TRAILING_FENCE] matches, the text is whitespace, a fence and
    what follows. *)
Lemma trailing_at_Some (s e : list N) :
  trailing_at s = Some e ->
  s = takewhile isspace s ++ fence ++ e /\ (e = [] \/ e = [nl]).
Proof.
  unfold trailing_at. intros H.
  destruct (strip_prefix fence (lstrip s)) as [u|] eqn:Hf; [|done].
  apply strip_prefix_Some in Hf.
  assert (Hs : s = takewhile isspace s ++ fence ++ u).
  { rewrite <- Hf. symmetry. apply take_drop_while. }
  destruct u as [|c [|d u]]; try done.
  - injection H as <-. auto.
  - destruct (N.eqb_spec c nl) as [->|]; [|done]. injection H as <-. auto.
Qed.

Lemma trailing_at_intro (w e : list N) :
  blank w = true -> e = [] \/ e = [nl] -> trailing_at (w ++ fence ++ e) = Some e.
Proof.
  intros Hw He. unfold trailing_at. rewrite lstrip_blank_app by done.
  destruct He as [-> | ->]; reflexivity.
Qed.

Lemma sub_go_trailing_rest b (e : list N) :
  e = [] \/ e = [nl] -> Re.sub_go TRAILING_FENCE b 0 e = e.
Proof. intros [-> | ->]; reflexivity. Qed.

Theorem sub_trailing (s : list N) : Re.sub TRAILING_FENCE s = strip_trailing s.
Proof.
  unfold Re.sub. generalize true as b.
  induction s as [|c t IH]; intros b; [done|].
  cbn [Re.sub_go strip_trailing]. rewrite match_at_trailing.
  destruct (trailing_at (c :: t)) as [e|] eqn:E.
  - destruct (trailing_at_Some _ _ E) as [Hs He].
    rewrite app_assoc in Hs.
    assert (Hlen : length (takewhile isspace (c :: t) ++ fence)
                   = S (length (takewhile isspace (c :: t)) + 2)).
    { rewrite length_app. simpl. lia. }
    replace (length (takewhile isspace (c :: t)) + 3)%nat
      with (S (length (takewhile isspace (c :: t)) + 2)) by lia.
    generalize dependent (length (takewhile isspace (c :: t))). intros n Hlen.
    destruct (takewhile isspace (c :: t) ++ fence) as [|x m]; [done|].
    injection Hs as -> ->. injection Hlen as Hlen.
    destruct (n + 2)%nat as [|k] eqn:Ek; [lia|].
    rewrite sub_go_skip, drop_length_app by done.
    by apply sub_go_trailing_rest.
  - by rewrite IH.
Qed.

(** Lines 101-105, with the substitutions in direct form. *)
Lemma clean_fences_direct (result : list N) :
  clean_fences result = strip_trailing (strip_leading (strip result)).
Proof. unfold clean_fences. by rewrite sub_leading, sub_trailing. Qed.

(** ** What the substitutions remove *)

Lemma strip_leading_unfenced (s : list N) :
  startswith fence s = false -> strip_leading s = s.
Proof.
  unfold startswith, strip_leading. by destruct (strip_prefix fence s).
Qed.

(** The leading step removes nothing, or a fence, an optional tag [json]
    and the whitespace after them. *)
Lemma strip_leading_cases (s : list N) :
  (startswith fence s = false /\ strip_leading s = s) \/
  exists tag w, s = fence ++ tag ++ w ++ strip_leading s
                /\ (tag = [] \/ tag = py "json") /\ blank w = true.
Proof.
  unfold startswith, strip_leading.
  destruct (strip_prefix fence s) as [u|] eqn:Hf; [right|by left].
  apply strip_prefix_Some in Hf.
  destruct (strip_prefix (py "json") u) as [u'|] eqn:Hj.
  - apply strip_prefix_Some in Hj.
    destruct (lstrip_suffix u') as (w & Hw & Hb).
    exists (py "json"), w. rewrite <- Hw, <- Hj. auto.
  - destruct (lstrip_suffix u) as (w & Hw & Hb).
    exists [], w. rewrite app_nil_l, <- Hw. auto.
Qed.

Lemma strip_leading_ltrimmed (s : list N) :
  ltrimmed s = true -> ltrimmed (strip_leading s) = true.
Proof.
  unfold strip_leading. destruct (strip_prefix fence s); [|done].
  intros _. apply lstrip_ltrimmed.
Qed.

Lemma strip_leading_rtrimmed (s : list N) :
  rtrimmed s = true -> rtrimmed (strip_leading s) = true.
Proof.
  destruct (strip_leading_cases s) as [[_ ->]|(tag & w & Hs & _)]; [done|].
  intros H. rewrite Hs, !app_assoc in H. by apply rtrimmed_suffix in H.
Qed.

Lemma strip_leading_tagged (w x : list N) :
  blank w = true -> strip_leading (fence ++ py "json" ++ w ++ x) = lstrip x.
Proof.
  intros Hw. unfold strip_leading. rewrite !strip_prefix_app.
  by apply lstrip_blank_app.
Qed.

Lemma strip_leading_untagged (w x : list N) :
  blank w = true -> startswith (py "json") (w ++ x) = false ->
  strip_leading (fence ++ w ++ x) = lstrip x.
Proof.
  intros Hw Hj. unfold strip_leading. rewrite strip_prefix_app.
  unfold startswith in Hj. destruct (strip_prefix (py "json") (w ++ x)); [done|].
  by apply lstrip_blank_app.
Qed.

Lemma blank_not_rtrimmed c (x : list N) : blank (c :: x) = true -> rtrimmed (c :: x) = false.
Proof.
  intros Hb. unfold rtrimmed.
  assert (Hr : blank (rev (c :: x)) = true).
  { unfold blank in *. rewrite forallb_forall in *. intros y Hy%in_rev. auto. }
  destruct (rev (c :: x)) as [|d r] eqn:E.
  - apply (f_equal (@length N)) in E. rewrite length_rev in E. done.
  - simpl in *. apply andb_true_iff in Hr as [-> _]. done.
Qed.

Lemma rtrimmed_cons c (x : list N) :
  x <> [] -> rtrimmed (c :: x) = rtrimmed x.
Proof.
  intros Hx. unfold rtrimmed. simpl.
  destruct (rev x) as [|d r] eqn:E; [|done].
  apply (f_equal (@rev N)) in E. rewrite rev_involutive in E. done.
Qed.

Lemma rtrimmed_not_nl (a : list N) : rtrimmed (a ++ [nl]) = false.
Proof. unfold rtrimmed. by rewrite rev_app_distr. Qed.

(** A text without trailing whitespace whose end is not a fence is left
    alone by the trailing step. *)
Lemma strip_trailing_unfenced (s : list N) :
  rtrimmed s = true -> endswith fence s = false -> strip_trailing s = s.
Proof.
  induction s as [|c t IH]; [done|]. intros Hr He. cbn [strip_trailing].
  destruct (trailing_at (c :: t)) as [e|] eqn:E.
  - destruct (trailing_at_Some _ _ E) as [Hs [-> | ->]].
    + rewrite app_nil_r in Hs.
      assert (endswith fence (c :: t) = true); [|congruence].
      apply endswith_true. eauto.
    + rewrite Hs, !app_assoc, rtrimmed_not_nl in Hr. done.
  - f_equal. apply IH.
    + by apply (rtrimmed_suffix [c]).
    + destruct (endswith fence t) eqn:Et; [|done].
      apply endswith_true in Et as [a ->].
      assert (endswith fence (c :: a ++ fence) = true); [|congruence].
      apply endswith_true. by exists (c :: a).
Qed.

(** The trailing step removes nothing, or the whitespace and the fence of
    its leftmost match. *)
Lemma strip_trailing_cases (s : list N) :
  strip_trailing s = s \/
  exists a w e, s = a ++ w ++ fence ++ e /\ strip_trailing s = a ++ e
                /\ blank w = true /\ (e = [] \/ e = [nl]) /\ rtrimmed a = true.
Proof.
  induction s as [|c t IH]; [by left|]. cbn [strip_trailing].
  destruct (trailing_at (c :: t)) as [e|] eqn:E.
  - right. destruct (trailing_at_Some _ _ E) as [Hs He].
    exists [], (takewhile isspace (c :: t)), e. split_and!; try done.
    apply takewhile_all.
  - destruct IH as [-> | (a & w & e & Ht & Hst & Hw & He & Ha)]; [by left|].
    right. exists (c :: a), w, e. rewrite Hst. split_and!; try done.
    + by rewrite Ht.
    + destruct a as [|d a]; [|by rewrite rtrimmed_cons].
      destruct (isspace c) eqn:Ec; [|by unfold rtrimmed; simpl; rewrite Ec].
      rewrite Ht in E. change (c :: [] ++ ?x) with ((c :: w) ++ fence ++ e) in E.
      rewrite (trailing_at_intro (c :: w) e) in E; [done| |done].
      simpl. by rewrite Ec.
Qed.

Lemma strip_trailing_rtrimmed (s : list N) :
  rtrimmed s = true -> rtrimmed (strip_trailing s) = true.
Proof.
  intros Hr.
  destruct (strip_trailing_cases s) as [-> | (a & w & e & Hs & -> & _ & [-> | ->] & Ha)];
    [done| |].
  - by rewrite app_nil_r.
  - by rewrite Hs, !app_assoc, rtrimmed_not_nl in Hr.
Qed.

Lemma strip_trailing_ltrimmed (s : list N) :
  ltrimmed s = true -> rtrimmed s = true -> ltrimmed (strip_trailing s) = true.
Proof.
  intros Hl Hr.
  destruct (strip_trailing_cases s) as [-> | (a & w & e & Hs & -> & _ & [-> | ->] & Ha)];
    [done| |].
  - rewrite app_nil_r. rewrite Hs in Hl. by apply ltrimmed_prefix in Hl.
  - by rewrite Hs, !app_assoc, rtrimmed_not_nl in Hr.
Qed.

(** After a text without trailing whitespace, whitespace and a closing
    fence are removed whole. *)
Lemma strip_trailing_fenced (x w : list N) :
  rtrimmed x = true -> blank w = true -> strip_trailing (x ++ w ++ fence) = x.
Proof.
  intros Hx Hw. induction x as [|c x IH].
  - simpl. destruct (w ++ fence) as [|d r] eqn:E.
    { by destruct w. }
    cbn [strip_trailing]. rewrite <- E.
    by rewrite <- (app_nil_r fence), trailing_at_intro by auto.
  - cbn [strip_trailing app].
    destruct (trailing_at (c :: x ++ w ++ fence)) as [e|] eqn:E.
    + exfalso. destruct (trailing_at_Some _ _ E) as [Hs He].
      pose proof (takewhile_all isspace (c :: x ++ w ++ fence)) as Hb.
      set (u := takewhile isspace (c :: x ++ w ++ fence)) in *.
      change (c :: x ++ w ++ fence) with ((c :: x) ++ w ++ fence) in Hs.
      destruct He as [-> | ->].
      * rewrite app_nil_r, app_assoc in Hs. apply app_inv_tail in Hs.
        assert (Hcx : blank (c :: x) = true).
        { fold (blank u) in Hb. rewrite <- Hs, blank_app in Hb.
          by apply andb_true_iff in Hb as [? _]. }
        rewrite (blank_not_rtrimmed _ _ Hcx) in Hx. done.
      * change fence with ([tick; tick] ++ [tick]) in Hs at 1.
        rewrite !app_assoc in Hs. apply app_inj_tail in Hs as [_ Hs]. done.
    + f_equal. apply IH. by apply (rtrimmed_suffix [c]).
Qed.

(** ** The text handed to the decoder *)

Lemma clean_fences_trimmed (t : list N) :
  ltrimmed (clean_fences t) = true /\ rtrimmed (clean_fences t) = true.
Proof.
  rewrite clean_fences_direct. destruct (strip_trimmed t) as [Hl Hr]. split.
  - apply strip_trailing_ltrimmed.
    + by apply strip_leading_ltrimmed.
    + by apply strip_leading_rtrimmed.
  - by apply strip_trailing_rtrimmed, strip_leading_rtrimmed.
Qed.

Lemma clean_fences_unfenced (t : list N) :
  startswith fence (strip t) = false -> endswith fence (strip t) = false ->
  clean_fences t = strip t.
Proof.
  intros Hs He. rewrite clean_fences_direct, strip_leading_unfenced by done.
  apply strip_trailing_unfenced; [apply strip_trimmed | done].
Qed.

Lemma lstrip_before_fence (x w : list N) :
  blank w = true ->
  exists w', lstrip (x ++ w ++ fence) = strip x ++ w' ++ fence /\ blank w' = true.
Proof.
  intros Hw. destruct (strip_decompose x) as (a & b & Hx & Ha & Hb).
  destruct (strip_trimmed x) as [Hl _].
  remember (strip x) as y eqn:Ey. clear Ey. subst x.
  rewrite <- !app_assoc, lstrip_blank_app by done.
  destruct y as [|c sx].
  - exists []. split; [|done]. simpl.
    rewrite app_assoc, lstrip_blank_app; [done|].
    by rewrite blank_app, Hb, Hw.
  - exists (b ++ w). rewrite <- !app_assoc. split.
    + by apply ltrimmed_lstrip.
    + by rewrite blank_app, Hb, Hw.
Qed.

Lemma fenced_trimmed (body : list N) :
  strip (fence ++ body ++ fence) = fence ++ body ++ fence.
Proof.
  apply strip_id; [done|].
  change fence with ([tick; tick] ++ [tick]) at 2.
  unfold rtrimmed. by rewrite !app_assoc, rev_app_distr.
Qed.

(** A text between a fence tagged [json] and a closing fence: what is
    left is the text, stripped. *)
Lemma clean_fences_tagged (w1 x w2 : list N) :
  blank w1 = true -> blank w2 = true ->
  clean_fences (fence ++ py "json" ++ w1 ++ x ++ w2 ++ fence) = strip x.
Proof.
  intros H1 H2. rewrite clean_fences_direct.
  replace (fence ++ py "json" ++ w1 ++ x ++ w2 ++ fence)
    with (fence ++ (py "json" ++ w1 ++ x ++ w2) ++ fence)
    by (by rewrite <- !app_assoc).
  rewrite fenced_trimmed, <- !app_assoc, strip_leading_tagged by done.
  destruct (lstrip_before_fence x w2 H2) as (w' & -> & Hw').
  apply strip_trailing_fenced; [apply strip_trimmed | done].
Qed.

(** The same between untagged fences, unless what follows the opening
    fence would be read as the tag. *)
Lemma clean_fences_untagged (w1 x w2 : list N) :
  blank w1 = true -> blank w2 = true ->
  startswith (py "json") (w1 ++ x ++ w2 ++ fence) = false ->
  clean_fences (fence ++ w1 ++ x ++ w2 ++ fence) = strip x.
Proof.
  intros H1 H2 Hj. rewrite clean_fences_direct.
  replace (fence ++ w1 ++ x ++ w2 ++ fence)
    with (fence ++ (w1 ++ x ++ w2) ++ fence)
    by (by rewrite <- !app_assoc).
  rewrite fenced_trimmed, <- !app_assoc, strip_leading_untagged by done.
  destruct (lstrip_before_fence x w2 H2) as (w' & -> & Hw').
  apply strip_trailing_fenced; [apply strip_trimmed | done].
Qed.

(** Fence stripping is anchored: the text handed to the decoder is the
    stripped reply without a marker at its start and one at its end. *)
Lemma clean_fences_anchored (t : list N) :
  exists p q, strip t = p ++ clean_fences t ++ q
              /\ (p = [] \/ leading_marker p) /\ (q = [] \/ trailing_marker q).
Proof.
  rewrite clean_fences_direct. destruct (strip_trimmed t) as [Hl Hr].
  pose proof (strip_leading_rtrimmed _ Hr) as Hr'.
  assert (Hq : exists q, strip_leading (strip t)
                         = strip_trailing (strip_leading (strip t)) ++ q
                         /\ (q = [] \/ trailing_marker q)).
  { destruct (strip_trailing_cases (strip_leading (strip t)))
      as [-> | (a & w & e & Hs & -> & Hw & [-> | ->] & _)].
    - exists []. by rewrite app_nil_r; auto.
    - exists (w ++ fence). rewrite !app_nil_r in *. split; [done|].
      right. by exists w.
    - by rewrite Hs, !app_assoc, rtrimmed_not_nl in Hr'. }
  destruct Hq as (q & Hq & Hqm).
  destruct (strip_leading_cases (strip t)) as [[_ E]|(tag & w & Hs & Htag & Hw)].
  - exists [], q. rewrite E in *. auto.
  - exists (fence ++ tag ++ w), q. split_and!; [|right; by exists tag, w|done].
    rewrite <- Hq, <- !app_assoc. done.
Qed.

(** Once the result carries no marker of its own, stripping it again
    changes nothing. *)
Lemma clean_fences_again (t : list N) :
  startswith fence (clean_fences t) = false ->
  endswith fence (clean_fences t) = false ->
  clean_fences (clean_fences t) = clean_fences t.
Proof.
  intros Hs He. destruct (clean_fences_trimmed t) as [Hl Hr].
  rewrite clean_fences_unfenced; rewrite strip_id; done.
Qed.

(** ** The decoder reads a value from its own text *)

Lemma skip_ws_nil (s : list N) : skip_ws s = [] -> forallb is_json_ws s = true.
Proof.
  intros H. rewrite <- (take_drop_while is_json_ws s).
  unfold skip_ws in H. rewrite H, app_nil_r. apply takewhile_all.
Qed.

Lemma scan_chars_ext n : forall (s : list N) acc cs r,
  (length s <= n)%nat ->
  scan_chars s acc = Some (cs, r) ->
  exists a, s = a ++ dquote :: r
            /\ forall r', scan_chars (a ++ dquote :: r') acc = Some (cs, r').
Proof.
  induction n as [|n IH]; intros [|c t] acc cs r Hlen H; try done.
  { simpl in Hlen. lia. }
  cbn [scan_chars] in H. cbn [length] in Hlen.
  destruct (c =? dquote) eqn:E1.
  { apply N.eqb_eq in E1 as ->. injection H as <- <-. by exists []. }
  destruct (c =? 92) eqn:E2.
  - destruct t as [|e t']; [done|].
    destruct (e =? 117) eqn:E3.
    + destruct t' as [|h1 [|h2 [|h3 [|h4 t'']]]]; try done.
      destruct (decode_uXXXX h1 h2 h3 h4) as [uni|] eqn:E4; [|done].
      apply IH in H as (a & -> & Ha); [|simpl in Hlen; lia].
      exists (c :: e :: h1 :: h2 :: h3 :: h4 :: a). split; [done|].
      intros r'. cbn [scan_chars app]. by rewrite E1, E2, E3, E4.
    + destruct (BACKSLASH e) as [x|] eqn:E4; [|done].
      apply IH in H as (a & -> & Ha); [|simpl in Hlen; lia].
      exists (c :: e :: a). split; [done|].
      intros r'. cbn [scan_chars app]. by rewrite E1, E2, E3, E4.
  - destruct (c <? 32) eqn:E3; [done|].
    apply IH in H as (a & -> & Ha); [|lia].
    exists (c :: a). split; [done|].
    intros r'. cbn [scan_chars app]. by rewrite E1, E2, E3.
Qed.

Lemma scanstring_ext (s : list N) x r :
  scanstring s = Some (x, r) ->
  exists a, s = a ++ dquote :: r
            /\ forall r', scanstring (a ++ dquote :: r') = Some (x, r').
Proof.
  unfold scanstring. intros H.
  destruct (scan_chars s []) as [[cs r0]|] eqn:E; [|done].
  injection H as <- <-.
  apply (scan_chars_ext (length s)) in E as (a & -> & Ha); [|done].
  exists a. split; [done|]. intros r'. by rewrite Ha.
Qed.

Lemma stops_weaken (cls cls' : N -> bool) (r : list N) :
  (forall c, cls c = false -> cls' c = false) -> stops cls r -> stops cls' r.
Proof. destruct r; simpl; auto. Qed.

Lemma stops_digit (r : list N) : stops number_char r -> stops is_digit r.
Proof.
  apply stops_weaken. unfold number_char. intros c H.
  by destruct (is_digit c).
Qed.

Lemma all_last (p : N -> bool) c (l : list N) :
  forallb p (c :: l) = true -> exists b d, c :: l = b ++ [d] /\ p d = true.
Proof.
  intros H. destruct (exists_last (l := c :: l)) as (b & d & E); [done|].
  exists b, d. split; [done|]. rewrite E, forallb_app in H.
  apply andb_true_iff in H as [_ H]. simpl in H. by rewrite andb_true_r in H.
Qed.

Lemma lex_int_ext (s i r : list N) :
  lex_int s = Some (i, r) ->
  s = i ++ r
  /\ (exists c i', i = c :: i' /\ is_digit c = true)
  /\ (exists b d, i = b ++ [d] /\ is_digit d = true)
  /\ forall r', stops is_digit r' -> lex_int (i ++ r') = Some (i, r').
Proof.
  unfold lex_int. destruct s as [|c t]; [done|].
  destruct (c =? 48) eqn:E0.
  - intros [= <- <-]. apply N.eqb_eq in E0 as ->. split_and!; try done.
    + by exists 48, [].
    + by exists [], 48.
  - destruct (is_digit c) eqn:Ed; [|done]. intros [= <- <-].
    pose proof (takewhile_all is_digit t) as Hall. split_and!.
    + by rewrite <- app_comm_cons, take_drop_while.
    + eauto.
    + apply all_last. simpl. by rewrite Ed.
    + intros r' Hr'. rewrite <- app_comm_cons, E0, Ed.
      by rewrite takewhile_app, dropwhile_all, dropwhile_stop.
Qed.

Lemma lex_frac_ext (s f r : list N) :
  lex_frac s = (f, r) ->
  s = f ++ r
  /\ (f = [] \/ (exists f', f = 46 :: f') /\ exists b d, f = b ++ [d] /\ is_digit d = true)
  /\ forall r', stops (fun c => is_digit c || (c =? 46)) r' ->
       lex_frac (f ++ r') = (f, r').
Proof.
  unfold lex_frac. destruct s as [|c [|d t]].
  - intros [= <- <-]. split_and!; [done|by left|].
    intros [|c' [|d' r']] Hr'; try done. simpl in *.
    apply orb_false_iff in Hr' as [_ ->]. done.
  - intros [= <- <-]. split_and!; [done|by left|].
    intros [|c' [|d' r']] Hr'; try done. simpl in *.
    apply orb_false_iff in Hr' as [_ ->]. done.
  - destruct ((c =? 46) && is_digit d) eqn:E.
    + apply andb_true_iff in E as [->%N.eqb_eq Ed]. intros [= <- <-].
      pose proof (takewhile_all is_digit t) as Hall. split_and!.
      * by rewrite <- !app_comm_cons, take_drop_while.
      * right. split; [eauto|].
        destruct (all_last is_digit d (takewhile is_digit t)) as (b & x & Hb & Hx).
        { simpl. by rewrite Ed. }
        exists (46 :: b), x. by rewrite Hb.
      * intros r' Hr'. rewrite <- !app_comm_cons. simpl. rewrite Ed.
        assert (stops is_digit r').
        { revert Hr'. apply stops_weaken. intros x Hx.
          by apply orb_false_iff in Hx as [? _]. }
        by rewrite takewhile_app, dropwhile_all, dropwhile_stop.
    + intros [= <- <-]. split_and!; [done|by left|].
      intros [|c' [|d' r']] Hr'; try done; simpl in *;
        apply orb_false_iff in Hr' as [_ ->]; done.
Qed.

Lemma is_digit_not_sign c : is_digit c = true -> (c =? 45) || (c =? 43) = false.
Proof.
  unfold is_digit. intros [H1 H2]%andb_true_iff.
  apply N.leb_le in H1. apply orb_false_iff.
  split; apply N.eqb_neq; lia.
Qed.

Lemma lex_exp_ext (s e r : list N) :
  lex_exp s = (e, r) ->
  s = e ++ r
  /\ (e = [] \/ (exists c e', e = c :: e' /\ is_digit c = false /\ (c =? 46) = false)
                /\ exists b d, e = b ++ [d] /\ is_digit d = true)
  /\ forall r', stops number_char r' -> lex_exp (e ++ r') = (e, r').
Proof.
  assert (Hnil : forall r', stops number_char r' -> lex_exp r' = ([], r')).
  { intros [|c r'] Hr'; [done|]. unfold lex_exp. simpl in Hr'.
    unfold number_char in Hr'.
    apply orb_false_iff in Hr' as [Hr' H2].
    apply orb_false_iff in Hr' as [_ H1]. by rewrite H1, H2. }
  unfold lex_exp. destruct s as [|c t].
  { intros [= <- <-]. split_and!; [done|by left|apply Hnil]. }
  destruct ((c =? 101) || (c =? 69)) eqn:Ec.
  2:{ intros [= <- <-]. split_and!; [done|by left|apply Hnil]. }
  destruct (lex_sign t) as [g t1] eqn:Eg.
  destruct (takewhile is_digit t1) as [|d ds] eqn:Ed.
  { intros [= <- <-]. split_and!; [done|by left|apply Hnil]. }
  intros [= <- <-].
  assert (Ht : t = g ++ t1).
  { unfold lex_sign in Eg. destruct t as [|x t]; [by injection Eg as <- <-|].
    destruct ((x =? 45) || (x =? 43)); by injection Eg as <- <-. }
  pose proof (takewhile_all is_digit t1) as Hall. rewrite Ed in Hall.
  assert (Hc : is_digit c = false /\ (c =? 46) = false).
  { apply orb_true_iff in Ec as [->%N.eqb_eq | ->%N.eqb_eq]; done. }
  split_and!.
  - rewrite Ht, <- app_comm_cons, <- app_assoc, <- Ed. by rewrite take_drop_while.
  - right. split; [by exists c, (g ++ d :: ds)|].
    destruct (all_last is_digit d ds Hall) as (b & x & Hb & Hx).
    exists (c :: g ++ b), x. rewrite Hb. split; [|done].
    by rewrite <- app_comm_cons, <- app_assoc.
  - intros r' Hr'. apply stops_digit in Hr'.
    rewrite <- app_comm_cons, Ec.
    assert (Eg' : lex_sign ((g ++ d :: ds) ++ r') = (g, (d :: ds) ++ r')).
    { unfold lex_sign in *. destruct t as [|x t].
      - injection Eg as <- <-. done.
      - destruct ((x =? 45) || (x =? 43)) eqn:Ex.
        + injection Eg as <- <-. simpl. by rewrite Ex.
        + injection Eg as <- <-. simpl.
          simpl in Ed. destruct (is_digit x) eqn:Edx; [|done].
          injection Ed as -> _. by rewrite (is_digit_not_sign _ Edx). }
    rewrite Eg'. rewrite takewhile_app, dropwhile_all, dropwhile_stop by done.
    done.
Qed.

Lemma number_body_ext minus (s : list N) v r :
  number_body minus s = Some (v, r) ->
  exists a, s = a ++ r
    /\ (exists c a', a = c :: a' /\ is_digit c = true)
    /\ (exists b d, a = b ++ [d] /\ is_digit d = true)
    /\ forall r', stops number_char r' -> number_body minus (a ++ r') = Some (v, r').
Proof.
  unfold number_body. intros H.
  destruct (lex_int s) as [[i s1]|] eqn:Ei; [|done].
  destruct (lex_frac s1) as [f s2] eqn:Ef.
  destruct (lex_exp s2) as [e s3] eqn:Ee.
  apply lex_int_ext in Ei as (-> & (c & i' & -> & Hc) & Hil & Hi).
  apply lex_frac_ext in Ef as (-> & Hf & Hf').
  apply lex_exp_ext in Ee as (-> & He & He').
  assert (Hr : r = s3) by (destruct (f ++ e); by injection H as _ <-). subst s3.
  exists ((c :: i') ++ f ++ e). split_and!.
  - by rewrite <- !app_assoc.
  - eauto.
  - destruct He as [-> | [_ (b & d & -> & Hd)]].
    + rewrite app_nil_r. destruct Hf as [-> | [_ (b & d & -> & Hd)]].
      * by rewrite app_nil_r.
      * exists ((c :: i') ++ b), d. by rewrite <- app_assoc.
    + exists ((c :: i') ++ f ++ b), d. by rewrite <- !app_assoc.
  - intros r' Hr'.
    assert (S2 : stops (fun x => is_digit x || (x =? 46)) (e ++ r')).
    { destruct He as [-> | [(x & e' & -> & Hx1 & Hx2) _]].
      - revert Hr'. apply stops_weaken. unfold number_char. intros x Hx.
        apply orb_false_iff in Hx as [Hx _]. by apply orb_false_iff in Hx as [Hx _].
      - simpl. by rewrite Hx1, Hx2. }
    assert (S1 : stops is_digit (f ++ e ++ r')).
    { destruct Hf as [-> | [(f' & ->) _]]; [|done].
      revert S2. apply stops_weaken. intros x Hx. by apply orb_false_iff in Hx as [? _]. }
    rewrite <- !app_assoc. rewrite (Hi _ S1), (Hf' _ S2), (He' _ Hr').
    destruct (f ++ e); by injection H as <-.
Qed.

Lemma match_number_ext (s : list N) v r :
  match_number s = Some (v, r) ->
  exists a, s = a ++ r
    /\ (exists c a', a = c :: a' /\ (c =? 45) || is_digit c = true)
    /\ (exists b d, a = b ++ [d] /\ is_digit d = true)
    /\ forall r', stops number_char r' -> match_number (a ++ r') = Some (v, r').
Proof.
  unfold match_number. destruct s as [|c t]; [done|].
  destruct (c =? 45) eqn:Ec; intros H.
  - apply number_body_ext in H as (a & -> & Hh & (b & d & -> & Hd) & Ha).
    exists (c :: b ++ [d]). split_and!; [done| | |].
    + exists c, (b ++ [d]). by rewrite Ec.
    + by exists (c :: b), d.
    + intros r' Hr'. rewrite <- app_comm_cons, Ec. by apply Ha.
  - apply number_body_ext in H as (a & Hs & (x & a' & -> & Hx) & Hl & Ha).
    injection Hs as <- ->. exists (c :: a'). split_and!; [done| |done|].
    + exists c, a'. by rewrite Hx, orb_true_r.
    + intros r' Hr'. rewrite <- app_comm_cons, Ec. by apply Ha.
Qed.

Lemma number_head c :
  (c =? 45) || is_digit c = true ->
  value_start c = true /\ (110 =? c) = false /\ (116 =? c) = false /\ (102 =? c) = false.
Proof.
  unfold value_start, is_digit. intros H.
  assert (Hc : (c = 45 \/ (48 <= c /\ c <= 57))%N).
  { apply orb_true_iff in H as [H|H]; [left; by apply N.eqb_eq|right].
    apply andb_true_iff in H as [H1 H2]. apply N.leb_le in H1, H2. done. }
  split_and!; try (apply N.eqb_neq; lia).
  apply orb_true_iff in H as [-> | ->]; by rewrite ?orb_true_r.
Qed.

Lemma digit_end d : is_digit d = true -> value_end d = true.
Proof. unfold value_end. intros ->. by rewrite ?orb_true_r. Qed.

Lemma match_constant_ext (s : list N) v r :
  match_constant s = Some (v, r) ->
  exists a, s = a ++ r /\ value_text a
    /\ forall r', stops number_char r' -> match_constant (a ++ r') = Some (v, r').
Proof.
  unfold match_constant. intros H.
  destruct (strip_prefix (py "null") s) as [r0|] eqn:E1.
  { injection H as <- <-. apply strip_prefix_Some in E1 as ->.
    exists (py "null"). split_and!; [done| |done].
    split; [by exists 110, (py "ull") | by exists (py "nul"), 108]. }
  destruct (strip_prefix (py "true") s) as [r0|] eqn:E2.
  { injection H as <- <-. apply strip_prefix_Some in E2 as ->.
    exists (py "true"). split_and!; [done| |done].
    split; [by exists 116, (py "rue") | by exists (py "tru"), 101]. }
  destruct (strip_prefix (py "false") s) as [r0|] eqn:E3.
  { injection H as <- <-. apply strip_prefix_Some in E3 as ->.
    exists (py "false"). split_and!; [done| |done].
    split; [by exists 102, (py "alse") | by exists (py "fals"), 101]. }
  destruct (match_number s) as [[v0 r0]|] eqn:E4.
  { injection H as <- <-.
    apply match_number_ext in E4 as (a & -> & (c & a' & -> & Hc) & (b & d & Hb & Hd) & Ha).
    destruct (number_head c Hc) as (Hs & N1 & N2 & N3).
    exists (c :: a'). split_and!; [done| |].
    - split; [by exists c, a' | exists b, d; by auto using digit_end].
    - intros r' Hr'. rewrite (Ha r' Hr'), <- app_comm_cons.
      change (py "null") with (110 :: py "ull").
      change (py "true") with (116 :: py "rue").
      change (py "false") with (102 :: py "alse").
      cbn [strip_prefix]. by rewrite N1, N2, N3. }
  destruct (strip_prefix (py "NaN") s) as [r0|] eqn:E5.
  { injection H as <- <-. apply strip_prefix_Some in E5 as ->.
    exists (py "NaN"). split_and!; [done| |done].
    split; [by exists 78, (py "aN") | by exists (py "Na"), 78]. }
  destruct (strip_prefix (py "Infinity") s) as [r0|] eqn:E6.
  { injection H as <- <-. apply strip_prefix_Some in E6 as ->.
    exists (py "Infinity"). split_and!; [done| |done].
    split; [by exists 73, (py "nfinity") | by exists (py "Infinit"), 121]. }
  destruct (strip_prefix (py "-Infinity") s) as [r0|] eqn:E7; [|done].
  injection H as <- <-. apply strip_prefix_Some in E7 as ->.
  exists (py "-Infinity"). split_and!; [done| |done].
  split; [by exists 45, (py "Infinity") | by exists (py "-Infinit"), 121].
Qed.

Lemma json_ws_not_number c : is_json_ws c = true -> number_char c = false.
Proof.
  unfold is_json_ws. intros H.
  assert (Hc : c = 32 \/ c = 9 \/ c = 10 \/ c = 13).
  { repeat (apply orb_true_iff in H as [H|H]); apply N.eqb_eq in H; auto. }
  destruct Hc as [-> | [-> | [-> | ->]]]; reflexivity.
Qed.

Lemma value_start_not_ws c : value_start c = true -> is_json_ws c = false.
Proof.
  intros H. destruct (is_json_ws c) eqn:E; [|done].
  unfold is_json_ws in E.
  assert (Hc : c = 32 \/ c = 9 \/ c = 10 \/ c = 13).
  { repeat (apply orb_true_iff in E as [E|E]); apply N.eqb_eq in E; auto. }
  destruct Hc as [-> | [-> | [-> | ->]]]; done.
Qed.

(** Whitespace and a separator end a number. *)
Lemma stops_separator (w x : list N) c :
  forallb is_json_ws w = true -> number_char c = false ->
  stops number_char (w ++ c :: x).
Proof.
  destruct w as [|d w]; simpl; [done|].
  intros [Hd _]%andb_true_iff _. by apply json_ws_not_number.
Qed.

Lemma skip_ws_ext (s : list N) c r :
  skip_ws s = c :: r ->
  exists w, s = w ++ c :: r /\ forallb is_json_ws w = true
            /\ forall r', skip_ws (w ++ c :: r') = c :: r'.
Proof.
  intros H. exists (takewhile is_json_ws s).
  pose proof (dropwhile_head _ _ _ _ H) as Hc. split_and!.
  - rewrite <- H. symmetry. apply take_drop_while.
  - apply takewhile_all.
  - intros r'. unfold skip_ws. rewrite dropwhile_all by apply takewhile_all.
    by apply dropwhile_stop.
Qed.

(** A syntax error is no value, and not the end of the budget. *)
Ltac refuse :=
  solve [done | unfold refused in *; repeat case_match; done].

Ltac raised := solve [done | eauto].

Ltac lengths :=
  repeat (rewrite ?length_app in *; cbn [length] in * ); lia.

(** Texts are compared with their concatenations nested to the right. *)
Ltac flat := repeat (progress (cbn [app]; rewrite <- ?app_assoc)).
Ltac flat_in H := repeat (progress (cbn [app] in H; rewrite <- ?app_assoc in H)).

(** The literal of a value is the text that was read. *)
Lemma literal_app (a r : list N) : literal (a ++ r) r = a.
Proof.
  unfold literal. rewrite length_app, Nat.add_sub. apply take_app_length.
Qed.

(** A conversion that succeeds keeps the value and the rest, whatever
    follows the literal. *)
Lemma converted_ext {interp : Interpreter} (a r : list N) v v' r0 :
  converted (a ++ r) v r = Scanned v' r0 ->
  v' = v /\ r0 = r /\ forall r', converted (a ++ r') v r' = Scanned v r'.
Proof.
  unfold converted. intros H.
  assert (Hl : forall r', literal (a ++ r') r' = a) by (intros; apply literal_app).
  destruct v; try (injection H as <- <-; done).
  rewrite Hl in H. destruct (int_conversion a) eqn:E; [done|].
  injection H as <- <-. split_and!; [done..|]. intros r'. by rewrite Hl, E.
Qed.

Lemma scan_once_reads_step {interp : Interpreter} n :
  array_items_reads n -> object_items_reads n -> scan_once_reads (S n).
Proof.
  intros IHa IHo d s v r H. cbn [scan_once] in H.
  destruct s as [|c t]; [refuse|].
  destruct (c =? dquote) eqn:E1.
  { destruct (scanstring t) as [[x r0]|] eqn:Es; [|refuse]. injection H as <- <-.
    apply N.eqb_eq in E1 as ->.
    apply scanstring_ext in Es as (a & -> & Ha).
    exists (dquote :: a ++ [dquote]). split_and!.
    - by flat.
    - split; [by exists dquote, (a ++ [dquote]) | by exists (dquote :: a), dquote].
    - intros r' [|m] _ Hm; [lia|]. flat. cbn [scan_once].
      by rewrite N.eqb_refl, Ha. }
  destruct (c =? 123) eqn:E2.
  { apply N.eqb_eq in E2 as ->. destruct d as [|d]; [refuse|].
    destruct (skip_ws t) as [|c' t'] eqn:Ew; [refuse|].
    apply skip_ws_ext in Ew as (w & -> & Hw & Hskip).
    destruct (c' =? 125) eqn:E3.
    - injection H as <- <-. apply N.eqb_eq in E3 as ->.
      exists (123 :: w ++ [125]). split_and!.
      + by flat.
      + split; [by exists 123, (w ++ [125]) | by exists (123 :: w), 125].
      + intros r' [|m] _ Hm; [lia|]. flat. cbn [scan_once].
        by rewrite E1, Hskip.
    - destruct (c' =? dquote) eqn:E4; [|refuse].
      apply IHo in H as (a & -> & (b & ->) & Ha).
      exists (123 :: w ++ c' :: b ++ [125]). split_and!.
      + by flat.
      + split; [by eexists 123, _ | exists (123 :: w ++ c' :: b), 125].
        split; [by flat|done].
      + intros r' [|m] _ Hm; [lengths|]. flat.
        cbn [scan_once]. rewrite E1, Hskip, E3, E4. cbn [N.eqb Pos.eqb].
        specialize (Ha r' m). flat_in Ha. apply Ha. lengths. }
  destruct (c =? 91) eqn:E3.
  { apply N.eqb_eq in E3 as ->. destruct d as [|d]; [refuse|].
    destruct (skip_ws t) as [|c' t'] eqn:Ew; [refuse|].
    apply skip_ws_ext in Ew as (w & -> & Hw & Hskip).
    destruct (c' =? 93) eqn:E4.
    - injection H as <- <-. apply N.eqb_eq in E4 as ->.
      exists (91 :: w ++ [93]). split_and!.
      + by flat.
      + split; [by exists 91, (w ++ [93]) | by exists (91 :: w), 93].
      + intros r' [|m] _ Hm; [lia|]. flat. cbn [scan_once].
        by rewrite E1, Hskip.
    - apply IHa in H as (a & Hs & (x & a' & -> & Hx) & (b & Hb) & Ha).
      injection Hs as <- ->.
      exists (91 :: w ++ c' :: a'). split_and!.
      + by flat.
      + split; [by eexists 91, _ |]. exists (91 :: w ++ b), 93.
        split; [|refuse]. rewrite Hb. by flat.
      + intros r' [|m] _ Hm; [lengths|]. flat.
        cbn [scan_once]. rewrite E1, Hskip, E4. cbn [N.eqb Pos.eqb].
        apply (Ha r' m). lengths. }
  destruct (match_constant (c :: t)) as [[v0 r0]|] eqn:Ec; [|refuse].
  apply match_constant_ext in Ec as (a & Hs & Hvt & Ha).
  rewrite Hs in H. apply converted_ext in H as (-> & -> & Hc).
  exists a. split_and!; [done..|].
  intros r' [|m] Hr' Hm; [lia|].
  destruct Hvt as [(x & a' & -> & Hx) _]. injection Hs as <- ->.
  specialize (Ha r' Hr'). cbn [app] in *. cbn [scan_once]. rewrite E1, E2, E3, Ha.
  apply (Hc r').
Qed.

Lemma array_items_reads_step {interp : Interpreter} n :
  scan_once_reads n -> array_items_reads n -> array_items_reads (S n).
Proof.
  intros IHv IHa d s values v r H. cbn [array_items] in H.
  destruct (scan_once n d s) as [v1 r1| |e|] eqn:Ev; try refuse.
  apply IHv in Ev as (a1 & -> & Hvt & Ha1).
  destruct (skip_ws r1) as [|c t] eqn:Ew; [refuse|].
  apply skip_ws_ext in Ew as (w & -> & Hw & Hskip).
  pose proof Hvt as [Hhead _]. destruct Hhead as (x & a1' & -> & Hx).
  destruct (c =? 93) eqn:E1.
  - injection H as <- <-. apply N.eqb_eq in E1 as ->.
    exists ((x :: a1') ++ w ++ [93]). split_and!.
    + by flat.
    + by eexists x, _.
    + exists ((x :: a1') ++ w). by flat.
    + intros r' [|m] Hm; [lengths|]. cbn [array_items].
      rewrite <- !app_assoc. rewrite Ha1.
      * cbn [app]. by rewrite Hskip.
      * by apply stops_separator.
      * lengths.
  - destruct (c =? 44) eqn:E2; [|refuse].
    apply IHa in H as (a2 & Hs & (y & a2' & -> & Hy) & (b & Hb) & Ha2).
    cbn [app] in Hs. apply skip_ws_ext in Hs as (w2 & -> & Hw2 & Hskip2).
    exists ((x :: a1') ++ w ++ c :: w2 ++ y :: a2'). split_and!.
    + by flat.
    + by eexists x, _.
    + exists ((x :: a1') ++ w ++ c :: w2 ++ b). rewrite Hb. by flat.
    + intros r' [|m] Hm; [lengths|]. cbn [array_items].
      rewrite <- !app_assoc. rewrite Ha1.
      * cbn [app]. rewrite Hskip, E1, E2. rewrite <- app_assoc. cbn [app].
        rewrite Hskip2. apply (Ha2 r' m). lengths.
      * apply stops_separator; [refuse|].
        apply N.eqb_eq in E2 as ->. done.
      * lengths.
Qed.

Lemma object_items_reads_step {interp : Interpreter} n :
  scan_once_reads n -> object_items_reads n -> object_items_reads (S n).
Proof.
  intros IHv IHo d s pairs v r H. cbn [object_items] in H.
  destruct (scanstring s) as [[key r0]|] eqn:Es; [|refuse].
  apply scanstring_ext in Es as (k & -> & Hk).
  destruct (skip_ws r0) as [|c t] eqn:Ew; [refuse|].
  apply skip_ws_ext in Ew as (w & -> & Hw & Hskip).
  destruct (c =? 58) eqn:E1; [|refuse].
  destruct (scan_once n d (skip_ws t)) as [v1 r1| |e|] eqn:Ev; try refuse.
  apply IHv in Ev as (a1 & Ht & Hvt & Ha1).
  pose proof Hvt as [Hhead _]. destruct Hhead as (x & a1' & -> & Hx).
  cbn [app] in Ht. apply skip_ws_ext in Ht as (w1 & -> & Hw1 & Hskip1).
  destruct (skip_ws r1) as [|c1 t1] eqn:Ew2; [refuse|].
  apply skip_ws_ext in Ew2 as (w2 & -> & Hw2 & Hskip2).
  destruct (c1 =? 125) eqn:E2.
  - injection H as <- <-. apply N.eqb_eq in E2 as ->.
    exists (k ++ dquote :: w ++ c :: w1 ++ (x :: a1') ++ w2 ++ [125]). split_and!.
    + by flat.
    + exists (k ++ dquote :: w ++ c :: w1 ++ (x :: a1') ++ w2). by flat.
    + intros r' [|m] Hm; [lengths|]. cbn [object_items]. flat.
      rewrite Hk, Hskip, E1, Hskip1.
      change (x :: a1' ++ ?z) with ((x :: a1') ++ z). rewrite Ha1.
      * by rewrite Hskip2.
      * by apply stops_separator.
      * lengths.
  - destruct (c1 =? 44) eqn:E3; [|refuse].
    destruct (skip_ws t1) as [|c2 t2] eqn:Ew3; [refuse|].
    apply skip_ws_ext in Ew3 as (w3 & -> & Hw3 & Hskip3).
    destruct (c2 =? dquote) eqn:E4; [|refuse].
    apply IHo in H as (a3 & -> & (b & Hb) & Ha3).
    exists (k ++ dquote :: w ++ c :: w1 ++ (x :: a1') ++ w2 ++ c1 :: w3 ++ c2 :: a3).
    split_and!.
    + by flat.
    + exists (k ++ dquote :: w ++ c :: w1 ++ (x :: a1') ++ w2 ++ c1 :: w3 ++ c2 :: b).
      rewrite Hb. by flat.
    + intros r' [|m] Hm; [lengths|]. cbn [object_items]. flat.
      rewrite Hk, Hskip, E1, Hskip1.
      change (x :: a1' ++ ?z) with ((x :: a1') ++ z). rewrite Ha1.
      * rewrite Hskip2, E2, E3, Hskip3, E4. apply (Ha3 r' m). lengths.
      * apply stops_separator; [refuse|]. apply N.eqb_eq in E3 as ->. done.
      * lengths.
Qed.

(** Whatever the budget, a value that is read is read from its own text. *)
Theorem scan_reads {interp : Interpreter} n :
  scan_once_reads n /\ array_items_reads n /\ object_items_reads n.
Proof.
  induction n as [|n (IHv & IHa & IHo)].
  - split_and!; intros ?; intros; done.
  - split_and!.
    + by apply scan_once_reads_step.
    + by apply array_items_reads_step.
    + by apply object_items_reads_step.
Qed.

(** ** The budget of [json_loads] is never exhausted *)

Lemma skip_ws_length (s : list N) : (length (skip_ws s) <= length s)%nat.
Proof. apply dropwhile_length. Qed.

Lemma skip_ws_cons_length (s : list N) c t :
  skip_ws s = c :: t -> (length t < length s)%nat.
Proof.
  intros H. pose proof (skip_ws_length s) as Hl. rewrite H in Hl. simpl in Hl. lia.
Qed.

Lemma scan_once_rest {interp : Interpreter} n d (s : list N) v r :
  scan_once n d s = Scanned v r -> (length r < length s)%nat.
Proof.
  intros H. destruct (scan_reads n) as (Hv & _).
  apply Hv in H as (a & -> & [(c & a' & -> & _) _] & _). lengths.
Qed.

Lemma scanstring_rest (s : list N) x r :
  scanstring s = Some (x, r) -> (length r < length s)%nat.
Proof. intros (a & -> & _)%scanstring_ext. lengths. Qed.

Theorem scan_fuel {interp : Interpreter} n :
  (forall d s, (2 * length s + 1 <= n)%nat -> scan_once n d s <> Exhausted)
  /\ (forall d s values, (2 * length s + 2 <= n)%nat ->
       array_items n d s values <> Exhausted)
  /\ (forall d s pairs, (2 * length s + 2 <= n)%nat ->
       object_items n d s pairs <> Exhausted).
Proof.
  induction n as [|n (IHv & IHa & IHo)].
  { split_and!; intros; lia. }
  split_and!.
  - intros d [|c t] Hn; cbn [scan_once]; [refuse|]. cbn [length] in Hn.
    destruct (c =? dquote); [destruct (scanstring t) as [[??]|]; refuse|].
    destruct (c =? 123).
    { destruct d as [|d]; [refuse|].
      destruct (skip_ws t) as [|c' t'] eqn:Ew; [refuse|].
      apply skip_ws_cons_length in Ew.
      destruct (c' =? 125); [refuse|]. destruct (c' =? dquote); [|refuse].
      apply IHo. lia. }
    destruct (c =? 91).
    { destruct d as [|d]; [refuse|].
      destruct (skip_ws t) as [|c' t'] eqn:Ew; [refuse|].
      apply skip_ws_cons_length in Ew.
      destruct (c' =? 93); [refuse|]. apply IHa. cbn [length]. lia. }
    destruct (match_constant (c :: t)) as [[v r]|]; [|refuse].
    unfold converted. destruct v; refuse.
  - intros d s values Hn. cbn [array_items].
    destruct (scan_once n d s) as [v r| |e|] eqn:Ev; [|refuse|refuse|].
    + apply scan_once_rest in Ev.
      destruct (skip_ws r) as [|c t] eqn:Ew; [refuse|].
      apply skip_ws_cons_length in Ew.
      destruct (c =? 93); [refuse|]. destruct (c =? 44); [|refuse].
      apply IHa. pose proof (skip_ws_length t). lia.
    + exfalso. revert Ev. apply IHv. lia.
  - intros d s pairs Hn. cbn [object_items].
    destruct (scanstring s) as [[key r]|] eqn:Es; [|refuse].
    apply scanstring_rest in Es.
    destruct (skip_ws r) as [|c t] eqn:Ew; [refuse|].
    apply skip_ws_cons_length in Ew.
    destruct (c =? 58); [|refuse].
    pose proof (skip_ws_length t) as Hl.
    destruct (scan_once n d (skip_ws t)) as [v r1| |e|] eqn:Ev; [|refuse|refuse|].
    + apply scan_once_rest in Ev.
      destruct (skip_ws r1) as [|c1 t1] eqn:Ew1; [refuse|].
      apply skip_ws_cons_length in Ew1.
      destruct (c1 =? 125); [refuse|]. destruct (c1 =? 44); [|refuse].
      destruct (skip_ws t1) as [|c2 t2] eqn:Ew2; [refuse|].
      apply skip_ws_cons_length in Ew2.
      destruct (c2 =? dquote); [|refuse]. apply IHo. lia.
    + exfalso. revert Ev. apply IHv. lia.
Qed.

(** [json_loads] never answers for lack of budget: its scan ends with a
    value, with a syntax error or with an exception. *)
Corollary json_loads_fuel {interp : Interpreter} d (s : list N) :
  scan_once (2 * length s + 1) d (skip_ws s) <> Exhausted.
Proof.
  destruct (scan_fuel (2 * length s + 1)) as (H & _). apply H.
  pose proof (skip_ws_length s). lia.
Qed.

(** ** The text of a well-formed JSON document *)

Lemma is_digit_cases c :
  is_digit c = true -> In c [48; 49; 50; 51; 52; 53; 54; 55; 56; 57].
Proof.
  unfold is_digit. intros [H1 H2]%andb_true_iff. apply N.leb_le in H1, H2.
  assert (H : c = 48 \/ c = 49 \/ c = 50 \/ c = 51 \/ c = 52 \/ c = 53 \/ c = 54
              \/ c = 55 \/ c = 56 \/ c = 57) by lia.
  simpl. intuition.
Qed.

Lemma value_start_cases c : value_start c = true -> In c value_starts.
Proof.
  unfold value_start. intros H.
  repeat (apply orb_true_iff in H as [H|H]);
    try (apply N.eqb_eq in H as ->; simpl; tauto).
  apply is_digit_cases in H. simpl in *. intuition.
Qed.

Lemma value_end_cases c : value_end c = true -> In c value_ends.
Proof.
  unfold value_end. intros H.
  repeat (apply orb_true_iff in H as [H|H]);
    try (apply N.eqb_eq in H as ->; simpl; tauto).
  apply is_digit_cases in H. simpl in *. intuition.
Qed.

(** A value starts with no whitespace, no backquote, no [j], no byte order
    mark. *)
Lemma value_start_plain c :
  value_start c = true ->
  isspace c = false /\ (tick =? c) = false /\ (106 =? c) = false /\ (BOM =? c) = false.
Proof.
  intros H%value_start_cases.
  assert (Hall : forallb (fun c => negb (isspace c) && negb (tick =? c)
                                    && negb (106 =? c) && negb (BOM =? c)) value_starts = true)
    by reflexivity.
  rewrite forallb_forall in Hall. apply Hall in H.
  repeat (apply andb_true_iff in H as [H ?]).
  split_and!; by apply negb_true_iff.
Qed.

(** A value ends with no whitespace and no backquote. *)
Lemma value_end_plain c :
  value_end c = true -> isspace c = false /\ (tick =? c) = false.
Proof.
  intros H%value_end_cases.
  assert (Hall : forallb (fun c => negb (isspace c) && negb (tick =? c)) value_ends = true)
    by reflexivity.
  rewrite forallb_forall in Hall. apply Hall in H.
  apply andb_true_iff in H as [H1 H2]. split; by apply negb_true_iff.
Qed.

Lemma json_ws_blank (w : list N) : forallb is_json_ws w = true -> blank w = true.
Proof.
  unfold blank. rewrite !forallb_forall. intros H c Hc. specialize (H c Hc).
  unfold is_json_ws in H.
  repeat (apply orb_true_iff in H as [H|H]); by apply N.eqb_eq in H as ->.
Qed.

(** The text of a value has no whitespace around it and no fence at
    either end, and is not read as the tag of a fence. *)
Lemma value_text_plain (a : list N) :
  value_text a ->
  ltrimmed a = true /\ rtrimmed a = true
  /\ startswith fence a = false /\ endswith fence a = false
  /\ (forall x, startswith (py "json") (a ++ x) = false)
  /\ startswith [BOM] a = false /\ skip_ws a = a.
Proof.
  intros [(c & a' & -> & Hc) (b & d & Hb & Hd)].
  destruct (value_start_plain c Hc) as (Hc1 & Hc2 & Hc3 & Hc4).
  destruct (value_end_plain d Hd) as (Hd1 & Hd2).
  assert (Hrev : rev (c :: a') = d :: rev b).
  { by rewrite Hb, rev_app_distr. }
  split_and!.
  - simpl. by rewrite Hc1.
  - unfold rtrimmed. rewrite Hrev. simpl. by rewrite Hd1.
  - unfold startswith, fence. cbn [strip_prefix]. by rewrite Hc2.
  - unfold endswith, startswith, fence. rewrite Hrev. cbn [rev app strip_prefix].
    by rewrite Hd2.
  - intros x. unfold startswith. change (py "json") with (106 :: py "son").
    cbn [app strip_prefix]. by rewrite Hc3.
  - unfold startswith. cbn [strip_prefix]. by rewrite Hc4.
  - apply dropwhile_stop. simpl. by apply value_start_not_ws.
Qed.

(** A well-formed document is the text of one value between JSON
    whitespace, and the value is read from that text alone. *)
Theorem json_loads_text {interp : Interpreter} (j : list N) v :
  json_loads j = Return v ->
  exists w1 a w2, j = w1 ++ a ++ w2
    /\ forallb is_json_ws w1 = true /\ forallb is_json_ws w2 = true
    /\ value_text a /\ json_loads a = Return v.
Proof.
  unfold json_loads at 1. intros H.
  destruct (startswith [BOM] j); [done|].
  destruct (scan_once (2 * length j + 1) (report_levels + recursion_left) (skip_ws j))
    as [v0 r| |e|] eqn:Ev; try done.
  destruct (skip_ws r) as [|? ?] eqn:Er; [|done]. injection H as ->.
  destruct (scan_reads (2 * length j + 1)) as (Hv & _).
  apply Hv in Ev as (a & Hs & Hvt & Ha).
  pose proof Hvt as [(c & a' & -> & Hc) _].
  cbn [app] in Hs. apply skip_ws_ext in Hs as (w1 & -> & Hw1 & _).
  exists w1, (c :: a'), r. split_and!; try done.
  - by apply skip_ws_nil.
  - destruct (value_text_plain _ Hvt) as (_ & _ & _ & _ & _ & Hbom & Hskip).
    unfold json_loads. rewrite Hbom, Hskip.
    rewrite <- (app_nil_r (c :: a')) at 2. by rewrite Ha.
Qed.

(** Stripping a well-formed document leaves the text of its value. *)
Theorem json_loads_strip {interp : Interpreter} (j : list N) v :
  json_loads j = Return v ->
  value_text (strip j) /\ json_loads (strip j) = Return v.
Proof.
  intros (w1 & a & w2 & -> & Hw1 & Hw2 & Hvt & Ha)%json_loads_text.
  destruct (value_text_plain _ Hvt) as (Hl & Hr & _).
  by rewrite strip_around by auto using json_ws_blank.
Qed.

(** A well-formed document reaches the decoder stripped and otherwise
    untouched. *)
Theorem clean_fences_json {interp : Interpreter} (j : list N) v :
  json_loads j = Return v -> clean_fences j = strip j.
Proof.
  intros [Hvt _]%json_loads_strip.
  destruct (value_text_plain _ Hvt) as (_ & _ & Hs & He & _).
  by apply clean_fences_unfenced.
Qed.

(** ** The provider *)

Section ProviderFacts.

Context {V : Type}.
Variable sdk : request -> V -> result (option (list N)) * V.
Variable PROVIDER MODEL : list N.

(** [generate_response] by the outcome of its single call: the stripped
    text; the SDK's exception, logged when its class derives from
    [Exception]; or, without a text, the [AttributeError] of [.strip()],
    logged. *)
Lemma generate_response_run (prompt : list N) (w : world V) :
  let rq := request_of PROVIDER MODEL prompt in
  let w1 := called sdk rq w in
  generate_response sdk PROVIDER MODEL prompt w =
    match fst (sdk rq (vendor w)) with
    | Return (Some text) => (Return (strip text), w1)
    | Return None => (Raise AttributeError, logged w1 (error_record PROVIDER AttributeError))
    | Raise e =>
        (Raise e, if Exception e then logged w1 (error_record PROVIDER e) else w1)
    end.
Proof.
  unfold generate_response, request_of, error_record, called, logged.
  destruct (decide (PROVIDER = py "google")) as [E|E];
    unfold try_except, bind, call, lift, text_strip, logging_error, raise;
    cbn [vendor requests log];
    destruct (sdk _ (vendor w)) as [[[text|]|e] v]; try reflexivity;
    cbn [fst]; by destruct (Exception e).
Qed.

End ProviderFacts.

(** ** The provider adapter: one attempt, failures passed on *)

(** C9.  For every prompt, [generate_response] makes exactly one call to the
    vendor SDK: the list of requests grows by the one request for the
    prompt, and the vendor is left in the state that this call produced.
    When the call raises [e], [generate_response] raises the same [e]
    (no retry, no other error, no fallback value), after logging it when
    the class of [e] derives from [Exception]. *)
Theorem C9_single_attempt_failure_propagated {V : Type}
    (sdk : request -> V -> result (option (list N)) * V)
    (PROVIDER MODEL prompt : list N) (w : world V) :
  let rq := request_of PROVIDER MODEL prompt in
  let out := generate_response sdk PROVIDER MODEL prompt w in
  requests (snd out) = requests w ++ [rq]
  /\ vendor (snd out) = snd (sdk rq (vendor w))
  /\ forall e, fst (sdk rq (vendor w)) = Raise e ->
       fst out = Raise e
       /\ log (snd out)
          = log w ++ (if Exception e then [error_record PROVIDER e] else []).
Proof.
  cbn zeta. rewrite generate_response_run.
  destruct (fst (sdk _ (vendor w))) as [[text|]|e0]; cbn [fst snd].
  - by split_and!.
  - by split_and!.
  - split_and!; [by destruct (Exception e0)..|].
    intros e [= ->]. split; [done|].
    destruct (Exception e); cbn; [done|]. by rewrite app_nil_r.
Qed.

Lemma C9_witness :
  generate_response
    (fun (_ : request) (v : nat) => (Raise (VendorError (py "quota exceeded")), S v))
    (py "openai") (py "gpt-3.5-turbo") (py "Hi") (World 0%nat [] [])
  = (Raise (VendorError (py "quota exceeded")),
     World 1%nat [ChatCompletion (py "gpt-3.5-turbo") (py "Hi")]
       [OpenAIError (VendorError (py "quota exceeded"))]).
Proof.
  destruct (C9_single_attempt_failure_propagated
              (fun (_ : request) (v : nat) => (Raise (VendorError (py "quota exceeded")), S v))
              (py "openai") (py "gpt-3.5-turbo") (py "Hi") (World 0%nat [] []))
    as (Hreq & Hv & He).
  destruct (He (VendorError (py "quota exceeded")) eq_refl) as [Hout Hlog].
  destruct (generate_response _ _ _ _ _) as [out [v rs l]].
  cbn in Hreq, Hv, Hout, Hlog. by subst.
Defined.

(** C10.  When the provider returns [text], [generate_response] returns
    [text.strip()], which neither begins nor ends with whitespace; so when
    the reply to the structured prompt fails to parse, the value returned
    has [error] set to [Failed to parse JSON] and [raw_response] set to
    this stripped text, not to the text of the provider. *)
Theorem C10_generate_returns_stripped_text {interp : Interpreter} {V : Type}
    (sdk : request -> V -> result (option (list N)) * V)
    (PROVIDER MODEL prompt text : list N) (w : world V) :
  fst (sdk (request_of PROVIDER MODEL prompt) (vendor w)) = Return (Some text) ->
  fst (generate_response sdk PROVIDER MODEL prompt w) = Return (strip text)
  /\ ltrimmed (strip text) = true /\ rtrimmed (strip text) = true
  /\ forall query,
       prompt = json_text query ->
       json_loads (clean_fences (strip text)) = Raise JSONDecodeError ->
       fst (structured_json_response sdk PROVIDER MODEL query w)
       = Return (VDict [(py "error", VStr (py "Failed to parse JSON"));
                        (py "raw_response", VStr (strip text))]).
Proof.
  intros H. pose proof (generate_response_run sdk PROVIDER MODEL prompt w) as Hrun.
  cbn zeta in Hrun. rewrite H in Hrun.
  destruct (strip_trimmed text) as [Hl Hr]. split_and!; try done.
  - by rewrite Hrun.
  - intros query -> Hbad. unfold structured_json_response, bind. rewrite Hrun.
    unfold normalize, try_except, lift. by rewrite Hbad.
Qed.

Lemma C10_witness :
  fst (structured_json_response (interp := cpython)
         (fun (_ : request) (v : unit) => (Return (Some (py "  I do not know.  ")), v))
         (py "google") (py "gemini-2.0-flash") (py "Why?") (World tt [] []))
  = Return (VDict [(py "error", VStr (py "Failed to parse JSON"));
                   (py "raw_response", VStr (py "I do not know."))]).
Proof.
  destruct (C10_generate_returns_stripped_text (interp := cpython)
              (fun (_ : request) (v : unit) => (Return (Some (py "  I do not know.  ")), v))
              (py "google") (py "gemini-2.0-flash")
              (json_text (py "Why?")) (py "  I do not know.  ") (World tt [] []))
    as (_ & _ & _ & H); [reflexivity|].
  apply (H (py "Why?")); [reflexivity|]. vm_compute. reflexivity.
Defined.

(** ** Prompt builders *)

Lemma question_not_answer : py "question" <> py "answer".
Proof. intros H. vm_compute in H. discriminate. Qed.

Lemma getitem_question qa : getitem (example_dict qa) (py "question") = Return (fst qa).
Proof. unfold getitem, example_dict. by rewrite lookup_insert_eq. Qed.

Lemma getitem_answer qa : getitem (example_dict qa) (py "answer") = Return (snd qa).
Proof.
  unfold getitem, example_dict.
  rewrite lookup_insert_ne by apply question_not_answer. by rewrite lookup_insert_eq.
Qed.

(** The loop appends the blocks of the examples, in their order. *)
Lemma few_shot_examples_blocks (exs : list (list N * list N)) : forall prompt,
  few_shot_examples prompt (map example_dict exs)
  = Return (prompt ++ concat (map example_block exs)).
Proof.
  induction exs as [|qa exs IH]; intros prompt; cbn [map few_shot_examples concat].
  - by rewrite app_nil_r.
  - rewrite getitem_question, getitem_answer, IH. unfold example_block.
    by rewrite <- !app_assoc.
Qed.

(** C6.  With the query [X?] and no example the few-shot prompt is
    [Q: X?\nA:]; with the single example ([Y?], [Z]) it is
    [Q: Y?\nA: Z\nQ: X?\nA:]; in general it is the blocks
    [Q: <question>\nA: <answer>\n] of the examples in their order, then
    [Q: <query>\nA:], and this is the prompt [few_shot_prompt] sends. *)
Theorem C6_few_shot_prompt_text {V : Type}
    (sdk : request -> V -> result (option (list N)) * V)
    (PROVIDER MODEL query : list N) (exs : list (list N * list N)) (w : world V) :
  few_shot_text (py "X?") [] = Return (py "Q: X?" ++ [nl] ++ py "A:")
  /\ few_shot_text (py "X?") [example_dict (py "Y?", py "Z")]
     = Return (py "Q: Y?" ++ [nl] ++ py "A: Z" ++ [nl] ++ py "Q: X?" ++ [nl] ++ py "A:")
  /\ few_shot_text query (map example_dict exs)
     = Return (concat (map example_block exs) ++ py "Q: " ++ query ++ [nl] ++ py "A:")
  /\ few_shot_prompt sdk PROVIDER MODEL query (map example_dict exs) w
     = generate_response sdk PROVIDER MODEL
         (concat (map example_block exs) ++ py "Q: " ++ query ++ [nl] ++ py "A:") w.
Proof.
  assert (H : forall q l, few_shot_text q (map example_dict l)
              = Return (concat (map example_block l) ++ py "Q: " ++ q ++ [nl] ++ py "A:")).
  { intros q l. unfold few_shot_text. by rewrite few_shot_examples_blocks. }
  split_and!.
  - apply (H (py "X?") []).
  - apply (H (py "X?") [(py "Y?", py "Z")]).
  - apply H.
  - unfold few_shot_prompt, bind, lift. by rewrite H.
Qed.

(** C7.  For every context [C] and question [Q] the prompt of
    [retrieval_augmented_generation] is [Context: C\nQuestion: Q\nAnswer:],
    a function of [C] and [Q] alone, and it is the one prompt sent. *)
Theorem C7_rag_prompt_text {V : Type}
    (sdk : request -> V -> result (option (list N)) * V)
    (PROVIDER MODEL context question : list N) (w : world V) :
  rag_text context question
  = py "Context: " ++ context ++ [nl] ++ py "Question: " ++ question ++ [nl] ++ py "Answer:"
  /\ rag_text (py "C") (py "Q")
     = py "Context: C" ++ [nl] ++ py "Question: Q" ++ [nl] ++ py "Answer:"
  /\ requests (snd (retrieval_augmented_generation sdk PROVIDER MODEL context question w))
     = requests w ++ [request_of PROVIDER MODEL (rag_text context question)].
Proof.
  split_and!; [reflexivity..|]. unfold retrieval_augmented_generation.
  rewrite generate_response_run.
  destruct (fst (sdk _ (vendor w))) as [[?|]|e]; try done.
  by destruct (Exception e).
Qed.

(** ** The dispatch table *)

Lemma functions_lookup (name : list N) :
  functions !! name =
    if decide (name = py "add") then Some Calculator.add
    else if decide (name = py "multiply") then Some Calculator.multiply
    else None.
Proof.
  unfold functions. destruct (decide (name = py "add")) as [->|Ha].
  - by rewrite lookup_insert_eq.
  - rewrite lookup_insert_ne by done.
    destruct (decide (name = py "multiply")) as [->|Hm].
    + by rewrite lookup_insert_eq.
    + by rewrite lookup_insert_ne.
Qed.

(** C3.  For all floats [a] and [b], [function_call] with the name [add]
    returns [a + b] and with the name [multiply] returns [a * b], so 5 and 3
    give 8 and 15; the name [divide] is refused; and for every name and
    arguments the call is refused as an unknown operation exactly when the
    name is neither [add] nor [multiply]. *)
Theorem C3_dispatch (a b : float) (name : list N) (args : list float) :
  function_call (py "add") [a; b] = Return (a + b)%float
  /\ function_call (py "multiply") [a; b] = Return (a * b)%float
  /\ function_call (py "add") [5; 3]%float = Return 8%float
  /\ function_call (py "multiply") [5; 3]%float = Return 15%float
  /\ function_call (py "divide") [5; 3]%float
     = Raise (ValueError (py "Function 'divide' not supported."))
  /\ ((exists msg, function_call name args = Raise (ValueError msg))
      <-> name <> py "add" /\ name <> py "multiply")
  /\ (name <> py "add" /\ name <> py "multiply" ->
      function_call name args
      = Raise (ValueError (py "Function '" ++ name ++ py "' not supported."))).
Proof.
  split_and!; try (by vm_compute).
  - unfold function_call. rewrite functions_lookup. split.
    + intros [msg H]. destruct (decide (name = py "add")) as [->|Ha].
      { unfold apply2 in H. repeat case_match; done. }
      destruct (decide (name = py "multiply")) as [->|Hm]; [|done].
      unfold apply2 in H. repeat case_match; done.
    + intros [Ha Hm]. rewrite !decide_False by done. eauto.
  - intros [Ha Hm]. unfold function_call. rewrite functions_lookup.
    by rewrite !decide_False.
Qed.

(** ** The Response Normalizer *)

Lemma scan_raised {interp : Interpreter} n :
  (forall d s e, scan_once n d s = Raised e -> limit_error e)
  /\ (forall d s values e, array_items n d s values = Raised e -> limit_error e)
  /\ (forall d s pairs e, object_items n d s pairs = Raised e -> limit_error e).
Proof.
  assert (Hr : forall d e, @refused value d = Raised e -> limit_error e).
  { unfold refused. intros d e. case_match; [intros [= <-]; by left | done]. }
  induction n as [|n (IHv & IHa & IHo)]; [by split_and!|].
  split_and!.
  - intros d [|c t] e; cbn [scan_once]; [raised|].
    destruct (c =? dquote); [destruct (scanstring t) as [[??]|]; raised|].
    destruct (c =? 123).
    { destruct d as [|d]; [intros [= <-]; by left|].
      destruct (skip_ws t) as [|c' t']; [raised|].
      destruct (c' =? 125); [raised|]. destruct (c' =? dquote); [|raised]. apply IHo. }
    destruct (c =? 91).
    { destruct d as [|d]; [intros [= <-]; by left|].
      destruct (skip_ws t) as [|c' t']; [raised|].
      destruct (c' =? 93); [raised|]. apply IHa. }
    destruct (match_constant (c :: t)) as [[v r]|]; [|raised].
    unfold converted, int_conversion. destruct v; try raised.
    destruct (_ && _)%bool eqn:E; [|raised]. intros [= <-]. right.
    apply andb_true_iff in E as [E1%Nat.ltb_lt E2%Nat.ltb_lt]. eauto.
  - intros d s values e. cbn [array_items].
    destruct (scan_once n d s) as [v r| |e'|] eqn:Ev; try raised.
    + destruct (skip_ws r) as [|c t]; [raised|].
      destruct (c =? 93); [raised|]. destruct (c =? 44); [|raised]. apply IHa.
    + intros [= <-]. by apply IHv in Ev.
  - intros d s pairs e. cbn [object_items].
    destruct (scanstring s) as [[key r]|]; [|raised].
    destruct (skip_ws r) as [|c t]; [raised|].
    destruct (c =? 58); [|raised].
    destruct (scan_once n d (skip_ws t)) as [v r1| |e'|] eqn:Ev; try raised.
    + destruct (skip_ws r1) as [|c1 t1]; [raised|].
      destruct (c1 =? 125); [raised|]. destruct (c1 =? 44); [|raised].
      destruct (skip_ws t1) as [|c2 t2]; [raised|].
      destruct (c2 =? dquote); [|raised]. apply IHo.
    + intros [= <-]. by apply IHv in Ev.
Qed.

(** [json.loads] returns a value, raises [JSONDecodeError], or raises for
    a limit of the interpreter. *)
Lemma json_loads_cases {interp : Interpreter} (s : list N) :
  (exists v, json_loads s = Return v) \/ json_loads s = Raise JSONDecodeError
  \/ exists e, json_loads s = Raise e /\ limit_error e /\ e <> JSONDecodeError.
Proof.
  unfold json_loads. destruct (startswith [BOM] s); [by right; left|].
  destruct (scan_once _ _ _) as [v r| |e|] eqn:E; [| by right; left | | by right; left].
  - destruct (skip_ws r); [left; eauto | by right; left].
  - right; right. exists e. destruct (scan_raised (2 * length s + 1)) as (H & _).
    apply H in E. split_and!; [done..|].
    destruct E as [-> | (digits & _ & ->)]; done.
Qed.

Lemma normalize_parsed {interp : Interpreter} {V : Type} (t : list N) v (w : world V) :
  json_loads (clean_fences t) = Return v -> normalize t w = (Return v, w).
Proof. intros H. unfold normalize, try_except, lift. by rewrite H. Qed.

Lemma normalize_failed {interp : Interpreter} {V : Type} (t : list N) (w : world V) :
  json_loads (clean_fences t) = Raise JSONDecodeError ->
  normalize t w
  = (Return (parse_failure t), logged w (JSONParseError (clean_fences t))).
Proof. intros H. unfold normalize, try_except, lift. by rewrite H. Qed.

(** An exception of [json.loads] that is no [JSONDecodeError] leaves the
    normalizer as it is, with nothing logged. *)
Lemma normalize_raised {interp : Interpreter} {V : Type} (t : list N) e (w : world V) :
  json_loads (clean_fences t) = Raise e -> e <> JSONDecodeError ->
  normalize t w = (Raise e, w).
Proof.
  intros H He. unfold normalize, try_except, lift. rewrite H.
  by destruct e.
Qed.

(** A well-formed JSON text reaches the decoder stripped, whether it is
    given as it is, between a fence tagged [json] and a closing fence, or
    between untagged fences. *)
Lemma clean_fences_forms {interp : Interpreter} (j w1 w2 : list N) (v : value) :
  json_loads j = Return v -> blank w1 = true -> blank w2 = true ->
  forall t,
    t = j \/ t = fence ++ py "json" ++ w1 ++ j ++ w2 ++ fence
    \/ t = fence ++ w1 ++ j ++ w2 ++ fence ->
    clean_fences t = strip j.
Proof.
  intros Hj H1 H2 t [-> | [-> | ->]].
  - by apply (clean_fences_json j v).
  - by apply clean_fences_tagged.
  - apply clean_fences_untagged; [done..|].
    destruct (json_loads_text j v Hj) as (u1 & a & u2 & -> & Hu1 & _ & Hva & _).
    destruct Hva as [(c & a' & -> & Hc') _].
    destruct (value_start_plain c Hc') as (Hsp & _ & Hnj & _).
    unfold startswith. change (py "json") with (106 :: py "son").
    destruct (w1 ++ (u1 ++ (c :: a') ++ u2) ++ w2 ++ fence) as [|d rest] eqn:E; [done|].
    cbn [strip_prefix]. destruct (N.eqb_spec 106 d) as [<-|]; [|done]. exfalso.
    assert (Hb : blank (w1 ++ u1) = true).
    { rewrite blank_app, H1. by apply json_ws_blank. }
    rewrite <- !app_assoc, app_assoc in E.
    destruct (w1 ++ u1) as [|d' rest']; cbn [app] in E.
    + by injection E as -> _.
    + injection E as -> _. simpl in Hb. done.
Qed.



(** C2, as the spec states it, fails.  A text of 1100 opening brackets is
    not well-formed JSON (a decoder that allows the nesting refuses it),
    and on it the Response Normalizer raises the [RecursionError] of
    [json.loads]; a text of 4301 digits, a space and a letter is not
    well-formed JSON either, and on it the Response Normalizer raises the
    [ValueError] of the conversion of the digits.  Neither text comes back
    as data, and nothing is logged. *)
Lemma C2_counterexample :
  json_loads (interp := {| recursion_left := 1100; int_max_str_digits := 4300 |})
    (clean_fences (repeat 91 1100)) = Raise JSONDecodeError
  /\ json_loads (interp := cpython) (clean_fences (repeat 91 1100)) = Raise RecursionError
  /\ normalize (interp := cpython) (repeat 91 1100) (World tt [] [])
     = (Raise RecursionError, World tt [] [])
  /\ normalize (interp := cpython) (repeat 49 4301 ++ py " x") (World tt [] [])
     = (Raise (int_too_long 4300 4301), World tt [] []).
Proof. vm_compute. split_and!; reflexivity. Qed.

(** C2, amended.  For every text on which, once stripped of whitespace and
    fences, [json.loads] raises [JSONDecodeError], the Response Normalizer
    returns (it does not raise) the value with [error] set to
    [Failed to parse JSON] and [raw_response] set to the text it was given,
    unchanged, and logs the cleaned text; the empty text is such a text,
    whatever the interpreter. *)
Theorem C2_parse_failure_is_data {interp : Interpreter} {V : Type}
    (t : list N) (w : world V) :
  json_loads (clean_fences t) = Raise JSONDecodeError ->
  normalize t w
  = (Return (VDict [(py "error", VStr (py "Failed to parse JSON"));
                    (py "raw_response", VStr t)]),
     logged w (JSONParseError (clean_fences t)))
  /\ json_loads (clean_fences []) = Raise JSONDecodeError
  /\ normalize [] w
     = (Return (VDict [(py "error", VStr (py "Failed to parse JSON"));
                       (py "raw_response", VStr [])]),
        logged w (JSONParseError [])).
Proof.
  intros H. split_and!.
  - by apply normalize_failed.
  - reflexivity.
  - by apply (normalize_failed []).
Qed.

Lemma C2_witness :
  normalize (interp := cpython) (py "Penicillin was discovered by Fleming.") (World tt [] [])
  = (Return (VDict [(py "error", VStr (py "Failed to parse JSON"));
                    (py "raw_response", VStr (py "Penicillin was discovered by Fleming."))]),
     World tt [] [JSONParseError (py "Penicillin was discovered by Fleming.")]).
Proof.
  apply (C2_parse_failure_is_data (interp := cpython)
           (py "Penicillin was discovered by Fleming.") (World tt [] [])).
  vm_compute. reflexivity.
Defined.

(** ** Fence stripping, once and twice *)

(** C4, as the spec states it, fails: a fenced block inside a fenced block
    loses one pair of fences at each application. *)
Lemma C4_counterexample :
  clean_fences (py "```" ++ [nl] ++ py "```json" ++ [nl] ++ py "{}" ++ [nl] ++ py "```"
                ++ [nl] ++ py "```")
  = py "```json" ++ [nl] ++ py "{}" ++ [nl] ++ py "```"
  /\ clean_fences
       (clean_fences (py "```" ++ [nl] ++ py "```json" ++ [nl] ++ py "{}" ++ [nl]
                      ++ py "```" ++ [nl] ++ py "```"))
     = py "{}"
  /\ clean_fences
       (clean_fences (py "```" ++ [nl] ++ py "```json" ++ [nl] ++ py "{}" ++ [nl]
                      ++ py "```" ++ [nl] ++ py "```"))
     <> clean_fences (py "```" ++ [nl] ++ py "```json" ++ [nl] ++ py "{}" ++ [nl]
                      ++ py "```" ++ [nl] ++ py "```").
Proof. vm_compute. split_and!; [reflexivity..|discriminate]. Qed.

(** C4, amended.  Fence stripping removes one marker at each end; on every
    text whose stripped form neither begins nor ends with a fence, applying
    it again changes nothing. *)
Theorem C4_idempotent_once_unfenced (t : list N) :
  startswith fence (clean_fences t) = false ->
  endswith fence (clean_fences t) = false ->
  clean_fences (clean_fences t) = clean_fences t.
Proof. apply clean_fences_again. Qed.

Lemma C4_witness :
  clean_fences (clean_fences (py "  ```json {} ```  ")) = clean_fences (py "  ```json {} ```  ").
Proof. apply C4_idempotent_once_unfenced; reflexivity. Defined.

(** ** The tag of the opening fence *)

(** A text that starts with a character no value starts with is refused. *)
Lemma json_loads_bad_start {interp : Interpreter} c (y : list N) :
  value_start c = false -> is_json_ws c = false ->
  json_loads (c :: y) = Raise JSONDecodeError.
Proof.
  intros Hc Hw. unfold json_loads.
  assert (Hskip : skip_ws (c :: y) = c :: y).
  { apply dropwhile_stop. simpl. done. }
  rewrite Hskip.
  assert (Hscan : forall n d, scan_once (S n) d (c :: y) = Invalid).
  { intros n d. unfold value_start in Hc.
    repeat (apply orb_false_iff in Hc as [Hc ?]).
    cbn [scan_once].
    replace (c =? dquote) with false by done.
    replace (c =? 123) with false by done. replace (c =? 91) with false by done.
    unfold match_constant, match_number, number_body, lex_int.
    change (py "null") with (110 :: py "ull"). change (py "true") with (116 :: py "rue").
    change (py "false") with (102 :: py "alse"). change (py "NaN") with (78 :: py "aN").
    change (py "Infinity") with (73 :: py "nfinity").
    change (py "-Infinity") with (45 :: py "Infinity").
    cbn [strip_prefix]. rewrite !(N.eqb_sym _ c).
    replace (c =? 110) with false by done. replace (c =? 116) with false by done.
    replace (c =? 102) with false by done. replace (c =? 45) with false by done.
    replace (c =? 78) with false by done. replace (c =? 73) with false by done.
    replace (is_digit c) with false by done.
    destruct (N.eqb_spec c 48) as [->|]; [|done].
    match goal with Hd : is_digit 48 = false |- _ => vm_compute in Hd; discriminate end. }
  replace (2 * length (c :: y) + 1)%nat with (S (2 * length (c :: y))) by lia.
  rewrite Hscan. by destruct (startswith [BOM] (c :: y)).
Qed.

Lemma json_casing_head (tag : list N) :
  json_casing tag = true ->
  exists c tag', tag = c :: tag' /\ (c = 106 \/ c = 74) /\ length tag = 4%nat.
Proof.
  destruct tag as [|a [|b [|c [|d [|? ?]]]]]; try done. simpl.
  intros H. repeat (apply andb_true_iff in H as [H ?]).
  exists a, [b; c; d]. split_and!; [done| |done].
  apply orb_true_iff in H as [H|H]; apply N.eqb_eq in H; auto.
Qed.

Lemma strip_prefix_same_length (p s r u : list N) :
  length p = length s -> strip_prefix p (s ++ r) = Some u -> s = p.
Proof.
  intros Hl H%strip_prefix_Some.
  apply app_inj_1 in H as [? _]; done.
Qed.

Lemma lstrip_app (u v : list N) :
  lstrip (u ++ v) = match lstrip u with [] => lstrip v | lu => lu ++ v end.
Proof.
  unfold lstrip. induction u as [|c u IH]; cbn [app dropwhile].
  - done.
  - by destruct (isspace c).
Qed.

Lemma rstrip_app (a b : list N) :
  rstrip (a ++ b) = match rstrip b with [] => rstrip a | rb => a ++ rb end.
Proof.
  unfold rstrip. rewrite rev_app_distr, lstrip_app.
  destruct (lstrip (rev b)) as [|c l]; [done|].
  rewrite rev_app_distr, rev_involutive.
  destruct (rev (c :: l)) eqn:E; [|done].
  apply (f_equal (@length N)) in E. by rewrite length_rev in E.
Qed.

Lemma json_casing_trimmed (tag : list N) :
  json_casing tag = true -> ltrimmed tag = true /\ rtrimmed tag = true.
Proof.
  destruct tag as [|a [|b [|c [|d [|? ?]]]]]; try done. cbn [json_casing].
  intros H. repeat (apply andb_true_iff in H as [H ?]).
  unfold rtrimmed. cbn [rev app ltrimmed]. split.
  - apply orb_true_iff in H as [H|H]; by apply N.eqb_eq in H as ->.
  - match goal with Hd : (d =? _) || _ = true |- _ =>
      apply orb_true_iff in Hd as [Hd|Hd]; by apply N.eqb_eq in Hd as -> end.
Qed.

(** C5, as the spec states it, fails on the tag [JSON]: the tag stays in
    front of the text and the reply is reported as not JSON, while the same
    reply with the tag [json] is parsed. *)
Lemma C5_counterexample :
  clean_fences (py "```JSON" ++ [nl] ++ py "{}" ++ [nl] ++ py "```")
  = py "JSON" ++ [nl] ++ py "{}"
  /\ fst (normalize (interp := cpython)
            (py "```json" ++ [nl] ++ py "{}" ++ [nl] ++ py "```") (World tt [] []))
     = Return (VDict [])
  /\ fst (normalize (interp := cpython)
            (py "```JSON" ++ [nl] ++ py "{}" ++ [nl] ++ py "```") (World tt [] []))
     = Return (parse_failure (py "```JSON" ++ [nl] ++ py "{}" ++ [nl] ++ py "```"))
  /\ fst (normalize (interp := cpython)
            (py "```JSON" ++ [nl] ++ py "{}" ++ [nl] ++ py "```") (World tt [] []))
     <> fst (normalize (interp := cpython)
               (py "```json" ++ [nl] ++ py "{}" ++ [nl] ++ py "```") (World tt [] [])).
Proof. vm_compute. split_and!; [reflexivity..|discriminate]. Qed.

(** C5, amended.  The tag of the opening fence is matched as written: in
    any other casing of [json] only the three backquotes of the opening
    fence and the closing fence are removed, the tag stays at the start of
    the cleaned text, and the Response Normalizer reports a parse failure;
    with the tag [json] a well-formed JSON text is returned parsed. *)
Theorem C5_tag_is_case_sensitive {interp : Interpreter} {V : Type}
    (tag w1 x w2 : list N) (w : world V) :
  json_casing tag = true -> tag <> py "json" ->
  blank w1 = true -> blank w2 = true ->
  clean_fences (fence ++ tag ++ w1 ++ x ++ w2 ++ fence) = rstrip (tag ++ w1 ++ x)
  /\ startswith tag (clean_fences (fence ++ tag ++ w1 ++ x ++ w2 ++ fence)) = true
  /\ normalize (fence ++ tag ++ w1 ++ x ++ w2 ++ fence) w
     = (Return (parse_failure (fence ++ tag ++ w1 ++ x ++ w2 ++ fence)),
        logged w (JSONParseError (rstrip (tag ++ w1 ++ x))))
  /\ forall v, json_loads x = Return v ->
       normalize (fence ++ py "json" ++ w1 ++ x ++ w2 ++ fence) w = (Return v, w).
Proof.
  intros Htag Hne H1 H2.
  destruct (json_casing_trimmed tag Htag) as [Hlt Hrt].
  destruct (json_casing_head tag Htag) as (c & tag' & Etag & Hc & Hlen).
  assert (Hcs : value_start c = false /\ is_json_ws c = false).
  { destruct Hc as [-> | ->]; done. }
  destruct Hcs as (Hvs & Hws).
  destruct (rstrip_prefix (tag ++ w1 ++ x)) as (wb & Hbody & Hb).
  pose proof (rstrip_rtrimmed (tag ++ w1 ++ x)) as Hry.
  assert (Hy : exists z, rstrip (tag ++ w1 ++ x) = tag ++ z).
  { rewrite rstrip_app. destruct (rstrip (w1 ++ x)) as [|d l].
    - exists []. by rewrite app_nil_r, rtrimmed_rstrip.
    - by exists (d :: l). }
  destruct Hy as [z Hz].
  assert (Hclean : clean_fences (fence ++ tag ++ w1 ++ x ++ w2 ++ fence)
                   = rstrip (tag ++ w1 ++ x)).
  { rewrite clean_fences_direct.
    replace (fence ++ tag ++ w1 ++ x ++ w2 ++ fence)
      with (fence ++ (tag ++ w1 ++ x ++ w2) ++ fence) by (by flat).
    rewrite fenced_trimmed. unfold strip_leading. rewrite strip_prefix_app.
    destruct (strip_prefix (py "json") ((tag ++ w1 ++ x ++ w2) ++ fence))
      as [u|] eqn:Ej.
    { exfalso. apply Hne. rewrite <- app_assoc in Ej.
      by apply strip_prefix_same_length in Ej. }
    rewrite ltrimmed_lstrip.
    - replace ((tag ++ w1 ++ x ++ w2) ++ fence)
        with (rstrip (tag ++ w1 ++ x) ++ (wb ++ w2) ++ fence).
      + apply strip_trailing_fenced; [done|]. by rewrite blank_app, Hb, H2.
      + transitivity ((rstrip (tag ++ w1 ++ x) ++ wb) ++ w2 ++ fence); [by flat|].
        rewrite <- Hbody. by flat.
    - rewrite Etag. cbn [app ltrimmed]. rewrite Etag in Hlt. done. }
  split_and!.
  - done.
  - rewrite Hclean, Hz. apply startswith_true. eauto.
  - rewrite <- Hclean. apply normalize_failed.
    rewrite Hclean, Hz, Etag. cbn [app].
    by apply json_loads_bad_start.
  - intros v Hv. apply normalize_parsed.
    rewrite (clean_fences_forms x w1 w2 v Hv H1 H2) by auto.
    by apply json_loads_strip.
Qed.

Lemma C5_witness :
  normalize (interp := cpython)
    (fence ++ py "JSON" ++ [nl] ++ py "{}" ++ [nl] ++ fence) (World tt [] [])
  = (Return (parse_failure (fence ++ py "JSON" ++ [nl] ++ py "{}" ++ [nl] ++ fence)),
     World tt [] [JSONParseError (py "JSON" ++ [nl] ++ py "{}")]).
Proof.
  apply (C5_tag_is_case_sensitive (interp := cpython)
           (py "JSON") [nl] (py "{}") [nl] (World tt [] []));
    [reflexivity | | reflexivity | reflexivity].
  intros H. vm_compute in H. discriminate.
Defined.

(** ** Fence removal is anchored *)

Lemma endswith_suffix (p a s : list N) :
  endswith p s = true -> endswith p (a ++ s) = true.
Proof.
  rewrite !endswith_true. intros [b ->]. exists (a ++ b). by rewrite app_assoc.
Qed.

Lemma strip_leading_end (s : list N) :
  endswith fence s = false -> endswith fence (strip_leading s) = false.
Proof.
  intros H. destruct (endswith fence (strip_leading s)) eqn:E; [|done].
  destruct (strip_leading_cases s) as [[_ Hs]|(tag & u & Hs & _)].
  - by rewrite Hs, H in E.
  - rewrite Hs, !app_assoc, endswith_suffix in H; done.
Qed.

(** C8.  When the stripped reply does not begin with a fence the leading
    substitution leaves it unchanged, and when it does not end with one the
    trailing substitution leaves its input unchanged; what the two remove
    is a marker at the very start and a marker at the very end, so a fence
    inside the text stays; and a well-formed JSON text without fences is
    parsed as [json.loads] parses it. *)
Theorem C8_fence_removal_is_anchored {interp : Interpreter} {V : Type} (t : list N) (w : world V) :
  (startswith fence (strip t) = false -> Re.sub LEADING_FENCE (strip t) = strip t)
  /\ (endswith fence (strip t) = false ->
      Re.sub TRAILING_FENCE (strip t) = strip t
      /\ Re.sub TRAILING_FENCE (Re.sub LEADING_FENCE (strip t))
         = Re.sub LEADING_FENCE (strip t))
  /\ (exists p q, strip t = p ++ clean_fences t ++ q
        /\ (p = [] \/ leading_marker p) /\ (q = [] \/ trailing_marker q))
  /\ (startswith fence (strip t) = false -> endswith fence (strip t) = false ->
      clean_fences t = strip t)
  /\ clean_fences (py "Use ```json to open and ``` to close a block.")
     = py "Use ```json to open and ``` to close a block."
  /\ (forall v, json_loads t = Return v ->
        clean_fences t = strip t /\ normalize t w = (Return v, w)).
Proof.
  destruct (strip_trimmed t) as [Hl Hr]. split_and!.
  - intros H. rewrite sub_leading. by apply strip_leading_unfenced.
  - intros H. rewrite !sub_trailing, sub_leading. split.
    + by apply strip_trailing_unfenced.
    + apply strip_trailing_unfenced.
      * by apply strip_leading_rtrimmed.
      * by apply strip_leading_end.
  - apply clean_fences_anchored.
  - apply clean_fences_unfenced.
  - by vm_compute.
  - intros v Hv. pose proof (clean_fences_json t v Hv) as Hc. split; [done|].
    apply normalize_parsed. rewrite Hc. by apply json_loads_strip.
Qed.

Lemma C8_witness :
  clean_fences (py " [1, 2] ") = py "[1, 2]"
  /\ normalize (interp := cpython) (py " [1, 2] ") (World tt [] [])
     = (Return (VList [VInt 1; VInt 2]), World tt [] []).
Proof.
  destruct (C8_fence_removal_is_anchored (interp := cpython) (py " [1, 2] ") (World tt [] []))
    as (_ & _ & _ & _ & _ & H).
  apply (H (VList [VInt 1; VInt 2])). reflexivity.
Defined.

(** ** More on the dispatch table *)

(** X1.  [function_call] returns a value exactly when the name is [add] or
    [multiply] and there are exactly two arguments, and the value is then
    their sum or product. *)
Theorem function_call_returns (name : list N) (args : list float) (x : float) :
  function_call name args = Return x
  <-> exists a b, args = [a; b]
        /\ ((name = py "add" /\ x = (a + b)%float)
            \/ (name = py "multiply" /\ x = (a * b)%float)).
Proof.
  unfold function_call. rewrite functions_lookup. split.
  - intros H. destruct (decide (name = py "add")) as [->|Ha].
    { destruct args as [|a [|b [|? ?]]]; try done. injection H as <-. eauto 6. }
    destruct (decide (name = py "multiply")) as [->|Hm]; [|done].
    destruct args as [|a [|b [|? ?]]]; try done. injection H as <-. eauto 6.
  - intros (a & b & -> & [[-> ->] | [-> ->]]).
    + by rewrite decide_True.
    + rewrite decide_False, decide_True; [done..|].
      intros E. vm_compute in E. discriminate.
Qed.

(** X2.  The name is checked before the arguments: a known name with a
    number of arguments other than two gives [TypeError], and an unknown
    name gives the [ValueError] of the table whatever the arguments are. *)
Theorem function_call_arity (name : list N) (args : list float) :
  (function_call name args = Raise TypeError
   <-> (name = py "add" \/ name = py "multiply") /\ length args <> 2%nat)
  /\ (name <> py "add" -> name <> py "multiply" ->
      function_call name args = function_call name []).
Proof.
  unfold function_call. rewrite !functions_lookup. split.
  - split.
    + intros H. destruct (decide (name = py "add")) as [->|Ha].
      { split; [by left|]. by destruct args as [|a [|b [|? ?]]]. }
      destruct (decide (name = py "multiply")) as [->|Hm]; [|done].
      split; [by right|]. by destruct args as [|a [|b [|? ?]]].
    + intros [[-> | ->] Hl].
      * rewrite decide_True by done. by destruct args as [|a [|b [|? ?]]].
      * rewrite decide_False, decide_True;
          [by destruct args as [|a [|b [|? ?]]] |done|].
        intros E. vm_compute in E. discriminate.
  - intros Ha Hm. by rewrite !decide_False.
Qed.

(** ** More on the provider adapter *)

(** X3.  A response without text makes [generate_response] raise the
    [AttributeError] of [.strip()], after its one request and logged like
    an SDK failure; it does not return an empty text. *)
Theorem generate_response_no_text {V : Type}
    (sdk : request -> V -> result (option (list N)) * V)
    (PROVIDER MODEL prompt : list N) (w : world V) :
  fst (sdk (request_of PROVIDER MODEL prompt) (vendor w)) = Return None ->
  generate_response sdk PROVIDER MODEL prompt w
  = (Raise AttributeError,
     World (snd (sdk (request_of PROVIDER MODEL prompt) (vendor w)))
       (requests w ++ [request_of PROVIDER MODEL prompt])
       (log w ++ [error_record PROVIDER AttributeError])).
Proof. intros H. rewrite generate_response_run. cbn zeta. by rewrite H. Qed.

Lemma generate_response_no_text_witness :
  generate_response (fun (_ : request) (v : unit) => (Return None, v))
    (py "google") (py "gemini-2.0-flash") (py "Hi") (World tt [] [])
  = (Raise AttributeError,
     World tt [GenerateContent (py "gemini-2.0-flash") (py "Hi")]
       [GoogleError AttributeError]).
Proof.
  apply (generate_response_no_text (fun (_ : request) (v : unit) => (Return None, v))
           (py "google") (py "gemini-2.0-flash") (py "Hi") (World tt [] [])).
  reflexivity.
Defined.

(** X4.  An exception that leaves [generate_response] has been logged
    once, in the record of the configured provider, when its class derives
    from [Exception]; a [KeyboardInterrupt] or a [SystemExit] of the SDK
    passes the handler and leaves with nothing logged; and a call that
    returns a text logs nothing. *)
Theorem generate_response_logs_failures {V : Type}
    (sdk : request -> V -> result (option (list N)) * V)
    (PROVIDER MODEL prompt : list N) (w : world V) :
  (forall text, fst (generate_response sdk PROVIDER MODEL prompt w) = Return text ->
     log (snd (generate_response sdk PROVIDER MODEL prompt w)) = log w)
  /\ (forall e, fst (generate_response sdk PROVIDER MODEL prompt w) = Raise e ->
        e <> KeyboardInterrupt -> e <> SystemExit ->
        log (snd (generate_response sdk PROVIDER MODEL prompt w))
        = log w ++ [error_record PROVIDER e])
  /\ (forall e, fst (generate_response sdk PROVIDER MODEL prompt w) = Raise e ->
        e = KeyboardInterrupt \/ e = SystemExit ->
        fst (sdk (request_of PROVIDER MODEL prompt) (vendor w)) = Raise e
        /\ log (snd (generate_response sdk PROVIDER MODEL prompt w)) = log w).
Proof.
  rewrite generate_response_run. cbn zeta.
  destruct (fst (sdk _ (vendor w))) as [[text|]|e0]; cbn [fst snd]; split_and!; try done.
  - by intros e [= <-].
  - intros e [= <-] [E | E]; discriminate.
  - intros e [= <-] H1 H2. by destruct e0.
  - intros e [= <-] [-> | ->]; by cbn.
Qed.

(** ** More on the Response Normalizer *)

Lemma normalize_returns {interp : Interpreter} {V : Type} (t : list N) (w : world V) :
  exists r l, normalize t w = (r, World (vendor w) (requests w) l).
Proof.
  destruct (json_loads_cases (clean_fences t)) as [[v Hv] | [He | (e & He & _ & Hne)]].
  - rewrite (normalize_parsed t v w Hv). destruct w. eauto.
  - rewrite normalize_failed by done. unfold logged. eauto.
  - rewrite (normalize_raised t e w He Hne). destruct w. eauto.
Qed.

(** Opening brackets stay as they are in the cleaned text. *)
Lemma clean_fences_brackets (n : nat) : clean_fences (repeat 91 n) = repeat 91 n.
Proof.
  destruct n as [|n]; [reflexivity|].
  assert (Hr : rev (repeat 91 (S n)) = 91 :: rev (repeat 91 n)).
  { change (repeat 91 (S n)) with (91 :: repeat 91 n).
    by rewrite repeat_cons, rev_app_distr. }
  assert (Hs : strip (repeat 91 (S n)) = repeat 91 (S n)).
  { apply strip_id; [reflexivity|]. unfold rtrimmed. by rewrite Hr. }
  rewrite clean_fences_unfenced; rewrite Hs; [done..|].
  unfold endswith. by rewrite Hr.
Qed.

(** One opening bracket more than the interpreter allows levels. *)
Lemma scan_once_too_deep {interp : Interpreter} (d n : nat) :
  (2 * d + 1 <= n)%nat -> scan_once n d (repeat 91 (S d)) = Raised RecursionError.
Proof.
  revert n. induction d as [|d IH]; intros [|n] Hn; try lia; [reflexivity|].
  destruct n as [|n]; [lia|].
  change (repeat 91 (S (S d))) with (91 :: 91 :: repeat 91 d).
  cbn [scan_once skip_ws dropwhile is_json_ws N.eqb Pos.eqb orb array_items].
  change (91 :: repeat 91 d) with (repeat 91 (S d)).
  rewrite IH by lia. reflexivity.
Qed.

Lemma json_loads_too_deep {interp : Interpreter} :
  json_loads (repeat 91 (S (report_levels + recursion_left))) = Raise RecursionError.
Proof.
  unfold json_loads. set (d := (report_levels + recursion_left)%nat).
  change (repeat 91 (S d)) with (91 :: repeat 91 d) at 1 3.
  cbn [startswith strip_prefix skip_ws dropwhile is_json_ws N.eqb Pos.eqb orb].
  change (91 :: repeat 91 d) with (repeat 91 (S d)).
  rewrite scan_once_too_deep; [done|]. rewrite repeat_length. lia.
Qed.

(** X5.  The normalizer never contacts the vendor, and it ends in one of
    three ways: it returns what [json.loads] returns and logs nothing; on a
    [JSONDecodeError] it returns the failure value and logs the cleaned
    text; and an exception of [json.loads] for a limit of the interpreter
    (a [RecursionError], the [ValueError] of an integer too long) leaves it
    as it is, with nothing logged.  The third happens under every
    interpreter: on one opening bracket more than it allows levels. *)
Theorem normalize_frame {interp : Interpreter} {V : Type} (t : list N) (w : world V) :
  vendor (snd (normalize t w)) = vendor w
  /\ requests (snd (normalize t w)) = requests w
  /\ ((exists v, json_loads (clean_fences t) = Return v
                 /\ fst (normalize t w) = Return v)
       /\ log (snd (normalize t w)) = log w
      \/ (json_loads (clean_fences t) = Raise JSONDecodeError
          /\ fst (normalize t w)
             = Return (VDict [(py "error", VStr (py "Failed to parse JSON"));
                              (py "raw_response", VStr t)])
          /\ log (snd (normalize t w)) = log w ++ [JSONParseError (clean_fences t)])
      \/ (exists e, json_loads (clean_fences t) = Raise e /\ limit_error e
                    /\ fst (normalize t w) = Raise e)
         /\ log (snd (normalize t w)) = log w)
  /\ normalize (repeat 91 (S (report_levels + recursion_left))) w
     = (Raise RecursionError, w).
Proof.
  split_and!.
  - destruct (normalize_returns t w) as (r & l & ->). done.
  - destruct (normalize_returns t w) as (r & l & ->). done.
  - destruct (json_loads_cases (clean_fences t)) as [[v Hv] | [He | (e & He & Hl & Hne)]].
    + rewrite (normalize_parsed t v w Hv). left. eauto.
    + rewrite normalize_failed by done. right; left. done.
    + rewrite (normalize_raised t e w He Hne). right; right. eauto.
  - apply normalize_raised; [|done].
    rewrite clean_fences_brackets. apply json_loads_too_deep.
Qed.

(** X6.  [structured_json_response] makes exactly one request, for its
    prompt.  It raises [e] exactly when the provider call raises [e], or
    carries no text and [e] is the [AttributeError] of [.strip()], or
    returns a text on which [json.loads] raises an [e] that is no
    [JSONDecodeError]; the first two are logged as [generate_response]
    logs them, the third is not logged.  So a reply on which [json.loads]
    raises [JSONDecodeError] never makes it raise. *)
Theorem structured_json_response_outcomes {interp : Interpreter} {V : Type}
    (sdk : request -> V -> result (option (list N)) * V)
    (PROVIDER MODEL query : list N) (w : world V) :
  let rq := request_of PROVIDER MODEL (json_text query) in
  let out := structured_json_response sdk PROVIDER MODEL query w in
  requests (snd out) = requests w ++ [rq]
  /\ (forall e, fst out = Raise e
        <-> fst (sdk rq (vendor w)) = Raise e
            \/ (fst (sdk rq (vendor w)) = Return None /\ e = AttributeError)
            \/ exists text, fst (sdk rq (vendor w)) = Return (Some text)
                 /\ json_loads (clean_fences (strip text)) = Raise e
                 /\ e <> JSONDecodeError)
  /\ (forall e, fst out = Raise e ->
        log (snd out)
        = log w ++ match fst (sdk rq (vendor w)) with
                   | Return (Some _) => []
                   | _ => if Exception e then [error_record PROVIDER e] else []
                   end).
Proof.
  cbn zeta. unfold structured_json_response, bind. rewrite generate_response_run.
  cbn zeta.
  destruct (fst (sdk _ (vendor w))) as [[text|]|e0] eqn:E.
  - set (w1 := called sdk (request_of PROVIDER MODEL (json_text query)) w).
    destruct (json_loads_cases (clean_fences (strip text)))
      as [[v Hv] | [He | (e' & He & _ & Hne)]].
    + rewrite (normalize_parsed (strip text) v w1 Hv). cbn [fst snd].
      split_and!; [done| |done].
      intros e. split; [done|]. intros [H | [[H _] | (text' & [= <-] & H & _)]]; congruence.
    + rewrite normalize_failed by done. cbn [fst snd].
      split_and!; [done| |done].
      intros e. split; [done|]. intros [H | [[H _] | (text' & [= <-] & H & Hn)]]; congruence.
    + rewrite (normalize_raised (strip text) e' w1 He Hne). cbn [fst snd].
      split_and!; [done| |].
      * intros e. split.
        -- intros [= <-]. right; right. eauto.
        -- intros [H | [[H _] | (text' & [= <-] & H & _)]]; congruence.
      * intros e _. cbn. by rewrite app_nil_r.
  - cbn [fst snd]. split_and!; [done| |by intros e [= <-]].
    intros e. split.
    + intros [= <-]. right; left. done.
    + intros [H | [[_ ->] | (text' & H & _)]]; done.
  - cbn [fst snd]. split_and!.
    + by destruct (Exception e0).
    + intros e. split.
      * intros [= <-]. by left.
      * intros [[= <-] | [[H _] | (text' & H & _)]]; done.
    + intros e [= <-]. destruct (Exception e0); cbn; [done|]. by rewrite app_nil_r.
Qed.

(** ** More on the few-shot prompt *)

Lemma few_shot_examples_app (good : list (gmap (list N) (list N)))
    (pairs : list (list N * list N)) :
  Forall2 has_keys good pairs ->
  forall prompt rest,
    few_shot_examples prompt (good ++ rest)
    = few_shot_examples (prompt ++ concat (map example_block pairs)) rest.
Proof.
  induction 1 as [|ex qa good pairs [Hq Ha] _ IH]; intros prompt rest.
  - by rewrite app_nil_r.
  - cbn [app few_shot_examples map concat]. unfold getitem. rewrite Hq, Ha, IH.
    f_equal. unfold example_block. by flat.
Qed.

(** X7.  Only the keys [question] and [answer] of an example are read:
    whatever else the examples hold, the prompt is made of the blocks of
    these two values in the order of the list, and it is the one prompt
    sent. *)
Theorem few_shot_prompt_reads_two_keys {V : Type}
    (sdk : request -> V -> result (option (list N)) * V)
    (PROVIDER MODEL query : list N) (examples : list (gmap (list N) (list N)))
    (pairs : list (list N * list N)) (w : world V) :
  Forall2 has_keys examples pairs ->
  few_shot_text query examples
  = Return (concat (map example_block pairs) ++ py "Q: " ++ query ++ [nl] ++ py "A:")
  /\ few_shot_prompt sdk PROVIDER MODEL query examples w
     = generate_response sdk PROVIDER MODEL
         (concat (map example_block pairs) ++ py "Q: " ++ query ++ [nl] ++ py "A:") w.
Proof.
  intros H.
  assert (Ht : few_shot_text query examples
               = Return (concat (map example_block pairs)
                         ++ py "Q: " ++ query ++ [nl] ++ py "A:")).
  { unfold few_shot_text. rewrite <- (app_nil_r examples).
    by rewrite (few_shot_examples_app _ _ H). }
  split; [done|]. unfold few_shot_prompt, bind, lift. by rewrite Ht.
Qed.

Lemma few_shot_prompt_reads_two_keys_witness :
  few_shot_text (py "X?")
    [<[py "id" := py "7"]> (<[py "question" := py "Y?"]> (<[py "answer" := py "Z"]> ∅))]
  = Return (py "Q: Y?" ++ [nl] ++ py "A: Z" ++ [nl] ++ py "Q: X?" ++ [nl] ++ py "A:").
Proof.
  apply (few_shot_prompt_reads_two_keys
           (fun (_ : request) (v : unit) => (Return None, v)) [] [] (py "X?")
           [<[py "id" := py "7"]> (<[py "question" := py "Y?"]> (<[py "answer" := py "Z"]> ∅))]
           [(py "Y?", py "Z")] (World tt [] [])).
  repeat constructor; by vm_compute.
Defined.

(** X8.  An example without the key [question], or with it and without
    the key [answer], makes [few_shot_prompt] raise the [KeyError] of that
    key, for the first such example of the list, and nothing is sent to
    the provider or logged. *)
Theorem few_shot_prompt_missing_key {V : Type}
    (sdk : request -> V -> result (option (list N)) * V)
    (PROVIDER MODEL query : list N)
    (good : list (gmap (list N) (list N))) (pairs : list (list N * list N))
    (bad : gmap (list N) (list N)) (rest : list (gmap (list N) (list N)))
    (w : world V) :
  Forall2 has_keys good pairs ->
  bad !! py "question" = None \/ bad !! py "answer" = None ->
  few_shot_prompt sdk PROVIDER MODEL query (good ++ bad :: rest) w
  = (Raise (KeyError (match bad !! py "question" with
                      | Some _ => py "answer"
                      | None => py "question"
                      end)), w).
Proof.
  intros Hgood Hbad. unfold few_shot_prompt, bind, lift, few_shot_text.
  rewrite (few_shot_examples_app _ _ Hgood). cbn [few_shot_examples]. unfold getitem.
  destruct (bad !! py "question") as [q|]; [|done].
  destruct Hbad as [?|Ha]; [done|]. by rewrite Ha.
Qed.

Lemma few_shot_prompt_missing_key_witness :
  few_shot_prompt (fun (_ : request) (v : unit) => (Return (Some (py "Paris")), v))
    (py "google") (py "gemini-2.0-flash") (py "X?")
    [example_dict (py "Y?", py "Z"); <[py "question" := py "W?"]> ∅]
    (World tt [] [])
  = (Raise (KeyError (py "answer")), World tt [] []).
Proof.
  assert (Hgood : Forall2 has_keys [example_dict (py "Y?", py "Z")] [(py "Y?", py "Z")]).
  { repeat constructor; by vm_compute. }
  assert (Hbad : (<[py "question" := py "W?"]> ∅ : gmap (list N) (list N)) !! py "question"
                 = None
                 \/ (<[py "question" := py "W?"]> ∅ : gmap (list N) (list N)) !! py "answer"
                    = None).
  { right. by vm_compute. }
  exact (few_shot_prompt_missing_key
           (fun (_ : request) (v : unit) => (Return (Some (py "Paris")), v))
           (py "google") (py "gemini-2.0-flash") (py "X?")
           [example_dict (py "Y?", py "Z")] [(py "Y?", py "Z")]
           (<[py "question" := py "W?"]> ∅) [] (World tt [] []) Hgood Hbad).
Defined.

(** ** More on fence stripping *)

Lemma lstrip_blank (b : list N) : blank b = true -> lstrip b = [].
Proof. intros H. by rewrite <- (app_nil_r b), lstrip_blank_app. Qed.

Lemma strip_padding (o1 t o2 : list N) :
  blank o1 = true -> blank o2 = true -> strip (o1 ++ t ++ o2) = strip t.
Proof.
  intros H1 H2. unfold strip. rewrite lstrip_blank_app, lstrip_app by done.
  destruct (lstrip t) as [|c l].
  - by rewrite lstrip_blank.
  - by rewrite rstrip_blank_app.
Qed.

Lemma clean_fences_padding (o1 t o2 : list N) :
  blank o1 = true -> blank o2 = true -> clean_fences (o1 ++ t ++ o2) = clean_fences t.
Proof. intros H1 H2. unfold clean_fences. by rewrite strip_padding. Qed.

(** X9.  Whitespace around the reply never changes what is parsed: the
    text handed to the decoder is the same with and without it, so a reply
    that parses without it is returned parsed with it. *)
Theorem clean_fences_ignores_padding {interp : Interpreter} {V : Type}
    (o1 t o2 : list N) (w : world V) :
  blank o1 = true -> blank o2 = true ->
  clean_fences (o1 ++ t ++ o2) = clean_fences t
  /\ forall v, json_loads (clean_fences t) = Return v ->
       normalize (o1 ++ t ++ o2) w = (Return v, w).
Proof.
  intros H1 H2.
  pose proof (clean_fences_padding o1 t o2 H1 H2) as Hc.
  split; [done|]. intros v Hv. apply normalize_parsed. by rewrite Hc.
Qed.

Lemma clean_fences_ignores_padding_witness :
  clean_fences ([nl] ++ py "```json {} ```" ++ [nl; nl]) = clean_fences (py "```json {} ```").
Proof.
  apply (clean_fences_ignores_padding (interp := cpython)
           [nl] (py "```json {} ```") [nl; nl] (World tt [] []));
    reflexivity.
Defined.

Lemma json_ws_is_space c : is_json_ws c = true -> isspace c = true.
Proof.
  unfold is_json_ws. intros H.
  repeat (apply orb_true_iff in H as [H|H]); by apply N.eqb_eq in H as ->.
Qed.

(** When the stripped reply opens with neither a fence nor whitespace, its
    first character is still the first one after fence stripping. *)
Lemma clean_fences_keeps_head (t : list N) c (y : list N) :
  strip t = c :: y -> startswith fence (strip t) = false ->
  exists y', clean_fences t = c :: y'.
Proof.
  intros Hs Hf. destruct (strip_trimmed t) as [Hl Hr].
  rewrite clean_fences_direct, strip_leading_unfenced by done.
  destruct (strip_trailing_cases (strip t))
    as [-> | (a & u & e & Ha & -> & Hu & He & _)]; [eauto|].
  destruct He as [-> | ->].
  2:{ by rewrite Ha, !app_assoc, rtrimmed_not_nl in Hr. }
  rewrite app_nil_r in *. destruct a as [|d a].
  - exfalso. cbn [app] in Ha. destruct u as [|x u].
    + rewrite Ha in Hf. done.
    + rewrite Ha in Hl. cbn in Hl, Hu.
      apply andb_true_iff in Hu as [Hx _]. by rewrite Hx in Hl.
  - rewrite Hs in Ha. injection Ha as -> _. eauto.
Qed.

(** X10.  A reply whose first character after stripping can start neither
    a JSON value nor a fence (prose before a fenced block, for instance)
    is never parsed: the fenced block is not looked for inside the text,
    and the failure value is returned. *)
Theorem normalize_refuses_leading_prose {interp : Interpreter} {V : Type}
    (t : list N) c (y : list N) (w : world V) :
  strip t = c :: y -> value_start c = false -> startswith fence (strip t) = false ->
  normalize t w = (Return (parse_failure t), logged w (JSONParseError (clean_fences t))).
Proof.
  intros Hs Hc Hf. apply normalize_failed.
  destruct (clean_fences_keeps_head t c y Hs Hf) as [y' ->].
  apply json_loads_bad_start; [done|].
  destruct (is_json_ws c) eqn:E; [|done].
  apply json_ws_is_space in E. destruct (strip_trimmed t) as [Hl _].
  rewrite Hs in Hl. cbn in Hl. by rewrite E in Hl.
Qed.

Lemma normalize_refuses_leading_prose_witness :
  fst (normalize (interp := cpython) (py "Here is the JSON: ```json {} ```") (World tt [] []))
  = Return (parse_failure (py "Here is the JSON: ```json {} ```")).
Proof.
  pose proof (normalize_refuses_leading_prose (interp := cpython)
                (py "Here is the JSON: ```json {} ```") 72 (py "ere is the JSON: ```json {} ```")
                (World tt [] []) eq_refl eq_refl eq_refl) as H.
  by rewrite H.
Defined.

(** X11.  The text handed to [json.loads] never begins or ends with
    whitespace and is never longer than the reply. *)
Theorem clean_fences_invariant (t : list N) :
  ltrimmed (clean_fences t) = true /\ rtrimmed (clean_fences t) = true
  /\ strip (clean_fences t) = clean_fences t
  /\ (length (clean_fences t) <= length t)%nat.
Proof.
  destruct (clean_fences_trimmed t) as [Hl Hr]. split_and!; [done..| |].
  - by apply strip_id.
  - destruct (clean_fences_anchored t) as (p & q & Hs & _).
    destruct (strip_decompose t) as (w1 & w2 & Ht & _).
    rewrite Ht at 2. rewrite Hs. lengths.
Qed.

(** X12.  An empty reply, a reply of whitespace only, and a fenced block
    that holds nothing but whitespace all reach the decoder as the empty
    text and are reported as parse failures. *)
Theorem normalize_empty_block {interp : Interpreter} {V : Type} (b t : list N) (w : world V) :
  blank b = true ->
  t = b \/ t = fence ++ py "json" ++ b ++ fence \/ t = fence ++ b ++ fence ->
  clean_fences t = []
  /\ normalize t w = (Return (parse_failure t), logged w (JSONParseError [])).
Proof.
  intros Hb Ht.
  assert (Hc : clean_fences t = []).
  { destruct Ht as [-> | [-> | ->]].
    - assert (Hs : strip b = []).
      { pose proof (strip_padding b [] [] Hb eq_refl) as H. cbn [app] in H.
        by rewrite app_nil_r in H. }
      rewrite clean_fences_unfenced; by rewrite Hs.
    - pose proof (clean_fences_tagged b [] [] Hb eq_refl) as H. cbn [app] in H.
      by rewrite H.
    - pose proof (clean_fences_untagged b [] [] Hb eq_refl) as H. cbn [app] in H.
      rewrite H; [done|].
      destruct b as [|c b]; [done|].
      cbn in Hb. apply andb_true_iff in Hb as [Hc _].
      unfold startswith. change (py "json") with (106 :: py "son").
      cbn [app strip_prefix]. destruct (N.eqb_spec 106 c) as [<-|]; done. }
  split; [done|]. rewrite <- Hc. apply normalize_failed. by rewrite Hc.
Qed.

Lemma normalize_empty_block_witness :
  normalize (interp := cpython) (py "```json" ++ [nl] ++ py "```") (World tt [] [])
  = (Return (parse_failure (py "```json" ++ [nl] ++ py "```")),
     World tt [] [JSONParseError []]).
Proof.
  apply (normalize_empty_block (interp := cpython)
           [nl] (py "```json" ++ [nl] ++ py "```") (World tt [] []));
    [reflexivity|]. right. left. reflexivity.
Defined.

(** ** A reply that looks like a failure *)

Lemma scan_chars_plain (r : list N) :
  plain r = true ->
  forall acc rest,
    scan_chars (r ++ dquote :: rest) acc = Some (rev acc ++ map (pair false) r, rest).
Proof.
  induction r as [|c r IH]; intros Hp acc rest.
  - cbn [app scan_chars map]. by rewrite N.eqb_refl, app_nil_r.
  - cbn [plain forallb] in Hp. apply andb_true_iff in Hp as [Hc Hp].
    apply andb_true_iff in Hc as [Hc H3]. apply andb_true_iff in Hc as [H1 H2].
    apply negb_true_iff in H1, H2, H3.
    cbn [app scan_chars map]. rewrite H1, H2, H3, (IH Hp).
    cbn [rev]. by rewrite <- app_assoc.
Qed.

Lemma join_surrogates_plain (r : list N) : join_surrogates (map (pair false) r) = r.
Proof.
  induction r as [|c r IH]; [done|].
  cbn [map join_surrogates]. destruct r as [|d r]; [done|].
  cbn [map] in *. by rewrite IH.
Qed.

Lemma scanstring_plain (r rest : list N) :
  plain r = true -> scanstring (r ++ dquote :: rest) = Some (r, rest).
Proof.
  intros Hp. unfold scanstring. rewrite (scan_chars_plain r Hp).
  cbn [rev app]. by rewrite join_surrogates_plain.
Qed.

(** A plain string literal is read as its text. *)
Lemma scan_once_plain_string {interp : Interpreter} n d (x rest : list N) :
  plain x = true ->
  scan_once (S n) d (dquote :: x ++ dquote :: rest) = Scanned (VStr x) rest.
Proof.
  intros Hx. cbn [scan_once]. by rewrite N.eqb_refl, scanstring_plain.
Qed.

(** One turn of the loop of [JSONObject]. *)
Lemma object_items_unfold {interp : Interpreter} n d (s : list N) pairs :
  object_items (S n) d s pairs =
    match scanstring s with
    | None => refused d
    | Some (key, r) =>
        match skip_ws r with
        | c :: t =>
            if c =? 58 then
              match scan_once n d (skip_ws t) with
              | Scanned v r1 =>
                  match skip_ws r1 with
                  | c1 :: t1 =>
                      if c1 =? 125 then Scanned (VDict (dict (rev ((key, v) :: pairs)))) t1
                      else if c1 =? 44 then
                        match skip_ws t1 with
                        | c2 :: t2 =>
                            if c2 =? dquote then object_items n d t2 ((key, v) :: pairs)
                            else refused d
                        | [] => refused d
                        end
                      else refused d
                  | [] => refused d
                  end
              | Invalid => Invalid
              | Raised e => Raised e
              | Exhausted => Exhausted
              end
            else refused d
        | [] => refused d
        end
    end.
Proof. reflexivity. Qed.

(** One item [key: string] of an object, followed by a comma and a
    further key, or by the closing brace. *)
Lemma object_items_more {interp : Interpreter} n d (k x rest : list N) pairs :
  plain k = true -> plain x = true ->
  object_items (S (S n)) d
    (k ++ dquote :: 58 :: 32 :: dquote :: x ++ dquote :: 44 :: 32 :: dquote :: rest) pairs
  = object_items (S n) d rest ((k, VStr x) :: pairs).
Proof.
  intros Hk Hx. rewrite object_items_unfold, scanstring_plain by done.
  change (skip_ws (58 :: ?t)) with (58 :: t). cbv beta iota.
  change (58 =? 58) with true. cbv beta iota.
  change (skip_ws (32 :: dquote :: ?t)) with (dquote :: t).
  rewrite scan_once_plain_string by done.
  change (skip_ws (44 :: ?t)) with (44 :: t). cbv beta iota.
  change (44 =? 125) with false. change (44 =? 44) with true. cbv beta iota.
  change (skip_ws (32 :: dquote :: ?t)) with (dquote :: t). cbv beta iota.
  by rewrite N.eqb_refl.
Qed.

Lemma object_items_last {interp : Interpreter} n d (k x rest : list N) pairs :
  plain k = true -> plain x = true ->
  object_items (S (S n)) d
    (k ++ dquote :: 58 :: 32 :: dquote :: x ++ dquote :: 125 :: rest) pairs
  = Scanned (VDict (dict (rev ((k, VStr x) :: pairs)))) rest.
Proof.
  intros Hk Hx. rewrite object_items_unfold, scanstring_plain by done.
  change (skip_ws (58 :: ?t)) with (58 :: t). cbv beta iota.
  change (58 =? 58) with true. cbv beta iota.
  change (skip_ws (32 :: dquote :: ?t)) with (dquote :: t).
  rewrite scan_once_plain_string by done.
  change (skip_ws (125 :: ?t)) with (125 :: t). cbv beta iota.
  by change (125 =? 125) with true.
Qed.

Lemma error_reply_scanned {interp : Interpreter} d (r : list N) :
  plain r = true -> scan_once 4 (S d) (error_reply r) = Scanned (parse_failure r) [].
Proof.
  intros Hr.
  change (error_reply r) with
    (123 :: dquote :: py "error" ++ dquote :: 58 :: 32 :: dquote
         :: py "Failed to parse JSON" ++ dquote :: 44 :: 32 :: dquote
         :: py "raw_response" ++ dquote :: 58 :: 32 :: dquote :: r ++ dquote :: 125 :: []).
  assert (Hopen : forall n t, scan_once (S n) (S d) (123 :: dquote :: t)
                              = object_items n d t [])
    by reflexivity.
  rewrite Hopen, object_items_more, object_items_last by done.
  reflexivity.
Qed.

(** X13.  The failure value is an ordinary [dict]: when the model replies
    the JSON text of an object with the keys [error] and [raw_response],
    the normalizer returns the very value it returns for a parse failure on
    the text [r], and only the log (nothing is written) tells the two
    apart. *)
Theorem normalize_failure_value_is_not_exclusive {interp : Interpreter} {V : Type}
    (r : list N) (w : world V) :
  plain r = true ->
  json_loads (error_reply r) = Return (parse_failure r)
  /\ normalize (error_reply r) w = (Return (parse_failure r), w).
Proof.
  intros Hr.
  assert (Hj : json_loads (error_reply r) = Return (parse_failure r)).
  { destruct (scan_reads 4) as (Hv & _).
    destruct (Hv _ _ _ _ (error_reply_scanned (2 + recursion_left) r Hr))
      as (a & Ha & _ & Hread).
    rewrite app_nil_r in Ha. subst a.
    unfold json_loads. change (startswith [BOM] (error_reply r)) with false.
    change (skip_ws (error_reply r)) with (error_reply r).
    change (report_levels + recursion_left)%nat with (S (2 + recursion_left)).
    rewrite <- (app_nil_r (error_reply r)) at 2. by rewrite Hread. }
  split; [done|].
  assert (Hc : clean_fences (error_reply r) = error_reply r).
  { rewrite clean_fences_unfenced.
    - apply strip_id; [done|].
      unfold error_reply, rtrimmed. by rewrite !app_assoc, rev_app_distr.
    - rewrite strip_id; [done..|].
      unfold error_reply, rtrimmed. by rewrite !app_assoc, rev_app_distr.
    - rewrite strip_id; [| done |].
      + unfold endswith, error_reply. by rewrite !app_assoc, rev_app_distr.
      + unfold error_reply, rtrimmed. by rewrite !app_assoc, rev_app_distr. }
  apply normalize_parsed. by rewrite Hc.
Qed.

Lemma normalize_failure_value_is_not_exclusive_witness :
  normalize (interp := cpython) (error_reply (py "I do not know.")) (World tt [] [])
  = (Return (parse_failure (py "I do not know.")), World tt [] []).
Proof.
  apply (normalize_failure_value_is_not_exclusive (interp := cpython)
           (py "I do not know.") (World tt [] [])).
  reflexivity.
Defined.

(** ** Start-up *)

Section StartupFacts.

Variable lower : list N -> list N.
Variable client_setup : list N -> list N -> result unit.

Lemma startup_provider (environ : gmap (list N) (list N)) (g : globals) :
  startup lower client_setup environ = Return g ->
  PROVIDER_of g = py "google" \/ PROVIDER_of g = py "openai".
Proof.
  unfold startup. intros H.
  destruct (environ !! py "API_KEY") as [[|c key]|]; try done.
  set (P := lower _) in *.
  destruct (decide (P = py "google")) as [Eg|Eg].
  - destruct (client_setup (py "google") (c :: key)) as [[]|e]; [|done].
    injection H as <-. by left.
  - destruct (decide (P = py "openai")) as [Eo|Eo]; [|done].
    destruct (client_setup (py "openai") (c :: key)) as [[]|e]; [|done].
    injection H as <-. by right.
Qed.

(** X14.  When the module loads without raising, the provider is [google]
    or [openai] (the lowercased variable, [google] when it is unset), the
    key is the non-empty [API_KEY] of the environment, the client of that
    provider was set up with it, and the model is the non-empty [MODEL] of
    the environment or else the default of the provider: never empty. *)
Theorem startup_invariants (environ : gmap (list N) (list N)) (g : globals) :
  startup lower client_setup environ = Return g ->
  PROVIDER_of g
  = lower (match environ !! py "PROVIDER" with Some p => p | None => py "google" end)
  /\ (PROVIDER_of g = py "google" \/ PROVIDER_of g = py "openai")
  /\ environ !! py "API_KEY" = Some (API_KEY_of g) /\ API_KEY_of g <> []
  /\ client_setup (PROVIDER_of g) (API_KEY_of g) = Return tt
  /\ MODEL_of g <> []
  /\ MODEL_of g
     = match environ !! py "MODEL" with
       | Some (c :: m) => c :: m
       | _ => if decide (PROVIDER_of g = py "google") then py "gemini-2.0-flash"
              else py "gpt-3.5-turbo"
       end.
Proof.
  unfold startup. intros H.
  destruct (environ !! py "API_KEY") as [[|c key]|] eqn:Ek; try done.
  set (P := lower _) in *.
  assert (Hm : forall m : list N,
             m = match environ !! py "MODEL" with
                 | Some (c0 :: m0) => c0 :: m0
                 | _ => if decide (P = py "google") then DEFAULT_MODEL_GOOGLE
                        else DEFAULT_MODEL_OPENAI
                 end -> m <> []).
  { intros m ->. destruct (environ !! py "MODEL") as [[|? ?]|]; try done;
      by destruct (decide (P = py "google")). }
  destruct (decide (P = py "google")) as [Eg|Eg].
  - destruct (client_setup (py "google") (c :: key)) as [[]|e] eqn:Ec; [|done].
    injection H as <-. cbn [PROVIDER_of API_KEY_of MODEL_of].
    rewrite Eg in *. rewrite decide_True by done.
    split_and!; try done; auto.
  - destruct (decide (P = py "openai")) as [Eo|Eo]; [|done].
    destruct (client_setup (py "openai") (c :: key)) as [[]|e] eqn:Ec; [|done].
    injection H as <-. cbn [PROVIDER_of API_KEY_of MODEL_of].
    rewrite decide_False by done.
    split_and!; try done; auto. by rewrite Eo.
Qed.

(** X15.  Without a key (the variable unset or empty) the module refuses
    to load with [Missing API_KEY environment variable.], whatever the
    provider is; with a key, a provider that is neither [google] nor
    [openai] once lowercased is refused with its lowercased name, and no
    client is set up in either case. *)
Theorem startup_refusals (environ : gmap (list N) (list N)) :
  (environ !! py "API_KEY" = None \/ environ !! py "API_KEY" = Some [] ->
   startup lower client_setup environ
   = Raise (ValueError (py "Missing API_KEY environment variable.")))
  /\ (forall c key p,
        environ !! py "API_KEY" = Some (c :: key) ->
        p = lower (match environ !! py "PROVIDER" with Some p => p | None => py "google" end) ->
        p <> py "google" -> p <> py "openai" ->
        startup lower client_setup environ
        = Raise (ValueError (py "Unsupported provider: " ++ p))).
Proof.
  unfold startup. split.
  - by intros [-> | ->].
  - intros c key p -> -> Hg Ho. by rewrite !decide_False.
Qed.

(** X16.  After a start-up that did not raise, [generate_response] takes
    its first branch for the provider [google] and its branch [else] for
    [openai] only: with the provider and the model of the start-up, its one
    request is [generate_content] for [google] and a chat completion for
    [openai], each with that model and the prompt, and the stripped text of
    that request's reply is what it returns. *)
Theorem startup_selects_request {V : Type}
    (sdk : request -> V -> result (option (list N)) * V)
    (environ : gmap (list N) (list N)) (g : globals) (prompt : list N) (w : world V) :
  startup lower client_setup environ = Return g ->
  let out := generate_response sdk (PROVIDER_of g) (MODEL_of g) prompt w in
  (PROVIDER_of g = py "google"
   /\ requests (snd out) = requests w ++ [GenerateContent (MODEL_of g) prompt]
   /\ vendor (snd out) = snd (sdk (GenerateContent (MODEL_of g) prompt) (vendor w))
   /\ forall text,
        fst (sdk (GenerateContent (MODEL_of g) prompt) (vendor w)) = Return (Some text) ->
        fst out = Return (strip text))
  \/ (PROVIDER_of g = py "openai"
      /\ requests (snd out) = requests w ++ [ChatCompletion (MODEL_of g) prompt]
      /\ vendor (snd out) = snd (sdk (ChatCompletion (MODEL_of g) prompt) (vendor w))
      /\ forall text,
           fst (sdk (ChatCompletion (MODEL_of g) prompt) (vendor w)) = Return (Some text) ->
           fst out = Return (strip text)).
Proof.
  intros H. cbn zeta. rewrite generate_response_run. cbn zeta.
  destruct (startup_provider environ g H) as [E | E]; [left | right];
    (split; [done|]); unfold request_of; rewrite E.
  - rewrite decide_True by done.
    destruct (fst (sdk _ (vendor w))) as [[text|]|e]; cbn [fst snd];
      try destruct (Exception e); split_and!; try done.
    by intros ? [= <-].
  - rewrite decide_False by (intros E'; vm_compute in E'; discriminate).
    destruct (fst (sdk _ (vendor w))) as [[text|]|e]; cbn [fst snd];
      try destruct (Exception e); split_and!; try done.
    by intros ? [= <-].
Qed.

End StartupFacts.

Lemma startup_invariants_witness :
  MODEL_of (Globals (py "openai") (py "sk-1") (py "gpt-3.5-turbo")) <> [].
Proof.
  apply (startup_invariants
           (map (fun c => if (65 <=? c) && (c <=? 90) then c + 32 else c))
           (fun _ _ => Return tt)
           (<[py "PROVIDER" := py "OpenAI"]> (<[py "API_KEY" := py "sk-1"]> ∅))
           (Globals (py "openai") (py "sk-1") (py "gpt-3.5-turbo"))).
  by vm_compute.
Defined.

Lemma startup_refusals_witness :
  startup (map (fun c => if (65 <=? c) && (c <=? 90) then c + 32 else c))
    (fun _ _ => Return tt)
    (<[py "PROVIDER" := py "Claude"]> (<[py "MODEL" := py "m"]> ∅))
  = Raise (ValueError (py "Missing API_KEY environment variable.")).
Proof.
  apply (startup_refusals
           (map (fun c => if (65 <=? c) && (c <=? 90) then c + 32 else c))
           (fun _ _ => Return tt)
           (<[py "PROVIDER" := py "Claude"]> (<[py "MODEL" := py "m"]> ∅))).
  left. by vm_compute.
Defined.

Lemma startup_selects_request_witness :
  requests
    (snd (generate_response
            (fun (_ : request) (v : unit) => (Return (Some (py " Hello ")), v))
            (py "openai") (py "gpt-3.5-turbo") (py "Hi") (World tt [] [])))
  = [ChatCompletion (py "gpt-3.5-turbo") (py "Hi")].
Proof.
  assert (H : startup (map (fun c => if (65 <=? c) && (c <=? 90) then c + 32 else c))
                (fun _ _ => Return tt)
                (<[py "PROVIDER" := py "OpenAI"]> (<[py "API_KEY" := py "sk-1"]> ∅))
              = Return (Globals (py "openai") (py "sk-1") (py "gpt-3.5-turbo")))
    by (by vm_compute).
  destruct (startup_selects_request _ _
              (fun (_ : request) (v : unit) => (Return (Some (py " Hello ")), v))
              _ _ (py "Hi") (World tt [] []) H) as [(E & _) | (_ & E & _)].
  - vm_compute in E. discriminate.
  - exact E.
Defined.

(** ** A JSON reply, end to end *)




